(** * get_game_descriptions.py: extraction of puzzle names and descriptions

    A shallow embedding of the script [get_game_descriptions.py] and the
    properties of its output.  Python [str] values are sequences of Unicode
    code points; the operations of [str] the script calls ([split], [index],
    slicing, [replace], [rstrip], [in], [format]) are written out below with
    the behaviour CPython gives them.  The input is the decoded page text;
    the output file is the text printed into it (its encoding and line-end
    translation belong to the interpreter and are not modelled). *)

From Stdlib Require Import List NArith Arith Lia Bool.
From Stdlib Require String Ascii.
From Equations.Prop Require Import Equations.
Import ListNotations String.StringSyntax.

(** ** Python strings *)

Module PyStr.

Local Open Scope string_scope.

(** A character is a code point; a [str] is a list of them. *)
Definition char : Type := N.
Definition str : Type := list char.

(** ASCII literals of the script, as code points. *)
Definition of_string (s : String.string) : str :=
  map Ascii.N_of_ascii (String.list_ascii_of_string s).

Definition NL : char := 10%N.      (* "\n" *)
Definition SP : char := 32%N.      (* " "  *)
Definition DQ : char := 34%N.      (* the double quote *)
Definition LT : char := 60%N.      (* "<"  *)
Definition GT : char := 62%N.      (* ">"  *)

(** [s.startswith(p)] *)
Fixpoint startswith (p s : str) : bool :=
  match p, s with
  | [], _ => true
  | _ :: _, [] => false
  | a :: p', b :: s' => N.eqb a b && startswith p' s'
  end.

(** [s.find(sub)]: the lowest index at which [sub] occurs in [s]. *)
Fixpoint find (sub s : str) : option nat :=
  if startswith sub s then Some 0
  else match s with
       | [] => None
       | _ :: s' => option_map S (find sub s')
       end.

(** [s.find(sub, start)] for [start >= 0]: the lowest index [>= start]. *)
Definition find_from (sub s : str) (start : nat) : option nat :=
  if length s <? start then None
  else option_map (Nat.add start) (find sub (skipn start s)).

(** [s[a:b]] for non-negative [a] and [b]; out-of-range bounds are clipped
    and [b <= a] gives the empty string. *)
Definition slice (s : str) (a b : nat) : str :=
  firstn (b - a) (skipn a s).

(** [sub in s] *)
Definition contains (sub s : str) : bool :=
  match find sub s with Some _ => true | None => false end.

(** Keeps the equation [x = y] when matching on [x]. *)
Definition inspect {A : Type} (x : A) : {y : A | x = y} := exist _ x eq_refl.

(** [s.split(sep)].  CPython searches the next occurrence of [sep] from the
    current position, cuts there and resumes after the separator.  An empty
    separator raises [ValueError] in Python; the script only splits on
    non-empty literals, and the model returns [[s]] there. *)
Equations? split (sep s : str) : list str by wf (length s) lt :=
  split [] s := [s];
  split (c :: sep') s with inspect (find (c :: sep') s) => {
    | exist _ None _ := [s];
    | exist _ (Some i) e :=
        firstn i s :: split (c :: sep') (skipn (i + length (c :: sep')) s) }.
Proof.
  all: destruct s as [|d s]; [discriminate e|];
    rewrite length_skipn; simpl length; lia.
Qed.

(** [s.replace(old, new)], every non-overlapping occurrence from the left.
    (Python inserts [new] between all characters for an empty [old]; the
    script only replaces non-empty literals, and the model returns [s].) *)
Equations? replace (old new s : str) : str by wf (length s) lt :=
  replace [] new s := s;
  replace (c :: old') new s with inspect (find (c :: old') s) => {
    | exist _ None _ := s;
    | exist _ (Some i) e :=
        firstn i s ++ new
          ++ replace (c :: old') new (skipn (i + length (c :: old')) s) }.
Proof.
  all: destruct s as [|d s]; [discriminate e|];
    rewrite length_skipn; simpl length; lia.
Qed.

(** [Py_UNICODE_ISSPACE]: the code points [str.rstrip()] removes. *)
Definition isspace (c : char) : bool :=
  ((9 <=? c) && (c <=? 13) || (28 <=? c) && (c <=? 32)
   || (c =? 133) || (c =? 160) || (c =? 5760)
   || (8192 <=? c) && (c <=? 8202)
   || (c =? 8232) || (c =? 8233) || (c =? 8239) || (c =? 8287)
   || (c =? 12288))%N.

(** [s.rstrip()]: drop the longest all-whitespace suffix. *)
Fixpoint rstrip (s : str) : str :=
  match s with
  | [] => []
  | c :: s' =>
      match rstrip s' with
      | [] => if isspace c then [] else [c]
      | t => c :: t
      end
  end.

End PyStr.
Import PyStr.

Local Open Scope string_scope.

(** ** Exceptions *)

(** The exceptions the script can raise once the page text is in hand.
    [AssertionError] carries the message of the [assert] statement. *)
Inductive exn : Type :=
| IndexError
| ValueError
| AssertionError (msg : str).

Inductive result (A : Type) : Type :=
| Ok (a : A)
| Raise (e : exn).
Arguments Ok {A} a.
Arguments Raise {A} e.

Definition bind {A B : Type} (m : result A) (k : A -> result B) : result B :=
  match m with
  | Ok a => k a
  | Raise e => Raise e
  end.

Notation "x <- m ;; k" := (bind m (fun x => k))
  (at level 61, m at next level, right associativity).

(** [r[k]] on a list, for [k >= 0] *)
Definition getitem {A : Type} (r : list A) (k : nat) : result A :=
  match nth_error r k with
  | Some x => Ok x
  | None => Raise IndexError
  end.

(** [s.index(sub)] and [s.index(sub, start)] *)
Definition index (s sub : str) : result nat :=
  match find sub s with
  | Some i => Ok i
  | None => Raise ValueError
  end.

Definition index_from (s sub : str) (start : nat) : result nat :=
  match find_from sub s start with
  | Some i => Ok i
  | None => Raise ValueError
  end.

(** [assert cond, msg] *)
Definition assert (cond : bool) (msg : str) : result unit :=
  if cond then Ok tt else Raise (AssertionError msg).

(** ** The script *)

(** The string literals of the script. *)
Definition SPAN : str :=
  of_string "<span class=" ++ [DQ] ++ of_string "puzzle" ++ [DQ] ++ [GT].
Definition TR : str := of_string "<tr>".
Definition TD_END : str := of_string "</td>".
Definition CODE_GT : str := of_string "<code>&gt;</code>".
Definition HEADER : str := of_string "NSString *GameDescriptions[][2] = {".
Definition FOOTER : str := of_string "};".

(** [name = r[1][r[1].index(">")+1 : r[1].index("<", 1)]], the subscripts
    evaluated in Python's order. *)
Definition get_name (r : list str) : result str :=
  a <- getitem r 1 ;;
  b <- getitem r 1 ;;
  i <- index b [GT] ;;
  c <- getitem r 1 ;;
  j <- index_from c [LT] 1 ;;
  Ok (slice a (i + 1) j).

(** [r[4][r[4].index(">")+1 : r[4].index("</td>", 2)]] *)
Definition get_raw_desc (r : list str) : result str :=
  a <- getitem r 4 ;;
  b <- getitem r 4 ;;
  i <- index b [GT] ;;
  c <- getitem r 4 ;;
  j <- index_from c TD_END 2 ;;
  Ok (slice a (i + 1) j).

(** The chain applied to the sliced description:
    [.replace("\n", " ").rstrip()] and then
    [.replace("<code>&gt;</code>", ">")]. *)
Definition clean_desc (raw : str) : str :=
  replace CODE_GT [GT] (rstrip (replace [NL] [SP] raw)).

(** The loop body up to the two assertions. *)
Definition extract (p : str) : result (str * str) :=
  let r := split TR p in
  name <- get_name r ;;
  raw <- get_raw_desc r ;;
  let desc := clean_desc raw in
  _ <- assert (negb (contains [LT] desc)) desc ;;
  _ <- assert (negb (contains [DQ] desc)) desc ;;
  Ok (name, desc).

(** ['    {{@"{}", @"{}"}},'.format(name, desc)] *)
Definition format_entry (name desc : str) : str :=
  of_string "    {@" ++ [DQ] ++ name ++ [DQ] ++ of_string ", @" ++ [DQ]
    ++ desc ++ [DQ] ++ of_string "},".

(** The output file is the text written so far; [print(x, file=f)] appends
    [x] and a newline. *)
Definition file : Type := str.

Definition print (x : str) (f : file) : file := f ++ x ++ [NL].

(** [for p in ...: <body>], threading the file.  An exception leaves the
    loop at once; what was printed before stays in the file, which the
    [with] statement closes on the way out. *)
Fixpoint loop (ps : list str) (f : file) : file * option exn :=
  match ps with
  | [] => (f, None)
  | p :: ps' =>
      match extract p with
      | Raise e => (f, Some e)
      | Ok (name, desc) => loop ps' (print (format_entry name desc) f)
      end
  end.

(** The whole script from the decoded page on: the contents of
    [descriptions.h] at exit and the exception, if any, that ended the run. *)
Definition main (page : str) : file * option exn :=
  let puzzles := split SPAN page in
  let f := print HEADER [] in
  match loop (skipn 1 puzzles) f with
  | (f', Some e) => (f', Some e)
  | (f', None) => (print FOOTER f', None)
  end.

Definition output (page : str) : file := fst (main page).
Definition outcome (page : str) : option exn := snd (main page).
Definition completes (page : str) : Prop := outcome page = None.

(** ** The run as a whole *)

(** The segments the loop visits: [puzzles[1:]]. *)
Definition segments (page : str) : list str := skipn 1 (split SPAN page).

(** The (name, description) pairs the loop prints: those of the segments
    before the first one that raises. *)
Fixpoint written (ps : list str) : list (str * str) :=
  match ps with
  | [] => []
  | p :: ps' =>
      match extract p with
      | Ok nd => nd :: written ps'
      | Raise _ => []
      end
  end.

Definition pairs (page : str) : list (str * str) := written (segments page).

Definition entry_line (nd : str * str) : str := format_entry (fst nd) (snd nd).

(** A text file made of the given lines, each ended by a newline. *)
Definition unlines (ls : list str) : str :=
  concat (map (fun l => l ++ [NL]) ls).

(** [f] consists of exactly the lines [ls]. *)
Definition is_lines (f : file) (ls : list str) : Prop :=
  f = unlines ls /\ Forall (fun l => ~ In NL l) ls.

(** The run as a relation between the page, the file left behind and the
    exception raised, one rule per way through the loop. *)
Inductive loop_runs : list str -> file -> file -> option exn -> Prop :=
| loop_done f :
    loop_runs [] f f None
| loop_raise p ps f e :
    extract p = Raise e ->
    loop_runs (p :: ps) f f (Some e)
| loop_next p ps f name desc f' o :
    extract p = Ok (name, desc) ->
    loop_runs ps (print (format_entry name desc) f) f' o ->
    loop_runs (p :: ps) f f' o.

Inductive script_runs (page : str) : file -> option exn -> Prop :=
| script_aborts f e :
    loop_runs (skipn 1 (split SPAN page)) (print HEADER []) f (Some e) ->
    script_runs page f (Some e)
| script_completes f :
    loop_runs (skipn 1 (split SPAN page)) (print HEADER []) f None ->
    script_runs page (print FOOTER f) None.

(** The slice a field of the segment is taken from: [r[n]], the index of its
    first [">"] and the index of the first [close] at or after [start]. *)
Definition field_slice (r : list str) (n : nat) (close : str) (start : nat)
    (x : str) : Prop :=
  exists rn i j,
    nth_error r n = Some rn /\ find [GT] rn = Some i
    /\ find_from close rn start = Some j /\ x = slice rn (i + 1) j.

Definition field_error (r : list str) (n : nat) (close : str) (start : nat)
    (e : exn) : Prop :=
  (e = IndexError /\ length r <= n)
  \/ (e = ValueError /\
      exists rn, nth_error r n = Some rn
        /\ (find [GT] rn = None \/ find_from close rn start = None)).

(** The ways a segment can fail. *)
Definition extract_error (p : str) (e : exn) : Prop :=
  field_error (split TR p) 1 [LT] 1 e
  \/ (exists name, field_slice (split TR p) 1 [LT] 1 name) /\
     (field_error (split TR p) 4 TD_END 2 e
      \/ exists raw,
           field_slice (split TR p) 4 TD_END 2 raw
           /\ e = AssertionError (clean_desc raw)
           /\ (In LT (clean_desc raw) \/ In DQ (clean_desc raw))).

(** Either every segment is extracted, or the loop stops at the first one
    that raises. *)
Definition all_extracted (ps : list str) : Prop :=
  map extract ps = map Ok (written ps).

Definition stops_at (ps : list str) (e : exn) : Prop :=
  exists pre p post,
    ps = pre ++ p :: post /\ map extract pre = map Ok (written ps)
    /\ extract p = Raise e.

(** A segment the loop body gets through. *)
Definition succeeds (p : str) : Prop := exists nd, extract p = Ok nd.

(** ** Auxiliary notions *)

(** Replacing one character by one character is a [map]. *)
Definition subst_char (a b : char) (c : char) : char :=
  if N.eqb c a then b else c.

(** [s] does not end in a whitespace character. *)
Definition no_trailing_space (s : str) : Prop :=
  forall t c, s = t ++ [c] -> isspace c = false.

(** The number of indices of [s] at which [sub] occurs (overlapping
    occurrences all counted). *)
Fixpoint occurrences (sub s : str) : nat :=
  (if startswith sub s then 1 else 0)
  + match s with
    | [] => 0
    | _ :: s' => occurrences sub s'
    end.

(** No occurrence of [sep] starts inside another. *)
Definition unbordered (sep : str) : Prop :=
  forall k t, 0 < k < length sep -> startswith sep (skipn k (sep ++ t)) = false.

(** The number of lines of a text: its newline characters. *)
Definition line_count (f : str) : nat := length (filter (N.eqb NL) f).

(** The lines of the file that belong to entries: all of them but the
    header line and the closing line. *)
Definition entry_lines (page : str) : nat := line_count (output page) - 2.

(** [sep.join(pieces)], the inverse of [split] on the pieces. *)
Fixpoint join (sep : str) (ps : list str) : str :=
  match ps with
  | [] => []
  | p :: ps' =>
      match ps' with
      | [] => p
      | _ :: _ => p ++ sep ++ join sep ps'
      end
  end.

(** ** The description transformation in the specification's words *)

(** "Replace every newline with a space, strip trailing whitespace, then
    perform that one substitution", each step written independently of the
    library calls above: a character map, a trim of the reversed string, and
    a left-to-right scan that skips over each replaced occurrence. *)
Module Spec.

Definition newlines_to_spaces (s : str) : str :=
  map (fun c => if N.eqb c NL then SP else c) s.

Fixpoint drop_while (f : char -> bool) (s : str) : str :=
  match s with
  | [] => []
  | c :: s' => if f c then drop_while f s' else s
  end.

Definition strip_trailing_whitespace (s : str) : str :=
  rev (drop_while isspace (rev s)).

Fixpoint substitute (old new : str) (skip : nat) (s : str) : str :=
  match s with
  | [] => []
  | c :: s' =>
      match skip with
      | S k => substitute old new k s'
      | 0 =>
          if startswith old s
          then new ++ substitute old new (length old - 1) s'
          else c :: substitute old new 0 s'
      end
  end.

Definition transform_description (raw : str) : str :=
  substitute CODE_GT [GT] 0 (strip_trailing_whitespace (newlines_to_spaces raw)).

End Spec.

(** ** Sample pages *)

(** One puzzle, in the markup the script expects: the name in the second
    row of the puzzle's table, the description in the fifth. *)
Definition seg_net : str :=
  of_string "<table><tr><th>Net</th></tr><tr><td>i</td></tr><tr><td>l</td></tr><tr><td>Rotate tiles."
  ++ [NL] ++ of_string "</td></tr></table></span>".

Definition page_net : str := of_string "<html>" ++ SPAN ++ seg_net.

(** A name with double quotes in it. *)
Definition seg_fifteen : str :=
  of_string "<table><tr><th>The " ++ [DQ] ++ of_string "15" ++ [DQ]
  ++ of_string " puzzle</th></tr><tr><td>i</td></tr><tr><td>l</td></tr><tr><td>Slide tiles.</td></tr></table></span>".

Definition page_fifteen : str := of_string "<html>" ++ SPAN ++ seg_fifteen.

(** A name broken over two lines. *)
Definition seg_black_box : str :=
  of_string "<table><tr><th>Black" ++ [NL]
  ++ of_string "Box</th></tr><tr><td>i</td></tr><tr><td>l</td></tr><tr><td>Find the balls.</td></tr></table></span>".

Definition page_black_box : str := of_string "<html>" ++ SPAN ++ seg_black_box.

(** A puzzle table with two rows only. *)
Definition page_two_rows : str :=
  of_string "<html>" ++ SPAN
  ++ of_string "<table><tr><th>Net</th></tr><tr><td>i</td></tr></table></span>".

(** A name cell without its tag. *)
Definition page_no_tag : str :=
  of_string "<html>" ++ SPAN ++ of_string "<table><tr>Net<tr>".

(** Markup left in the description of the second puzzle. *)
Definition seg_bold : str :=
  of_string "<table><tr><th>Mines</th></tr><tr><td>i</td></tr><tr><td>l</td></tr><tr><td>Find <b>all</b> mines.</td></tr></table></span>".

Definition page_net_bold : str :=
  of_string "<html>" ++ SPAN ++ seg_net ++ SPAN ++ seg_bold.

(** A page with one puzzle whose name cell holds the text [x]. *)
Definition block_named (x : str) : str :=
  of_string "<table><tr><th>" ++ x
  ++ of_string "</th></tr><tr><td>i</td></tr><tr><td>l</td></tr><tr><td>Rotate tiles.</td></tr></table></span>".

Definition page_named (x : str) : str :=
  of_string "<html>" ++ SPAN ++ block_named x.

(** The rows of [block_named x], cut at each ["<tr>"]. *)
Definition rows_named (x : str) : list str :=
  [of_string "<table>";
   (of_string "<th" ++ [GT]) ++ x ++ [LT] ++ of_string "/th></tr>";
   of_string "<td>i</td></tr>";
   of_string "<td>l</td></tr>";
   (of_string "<td" ++ [GT]) ++ of_string "Rotate tiles." ++ TD_END
     ++ of_string "</tr></table></span>"].

(** * Proofs *)

Example split_ex :
  split (of_string "<tr>") (of_string "a<tr>b<tr><tr>c")
  = [of_string "a"; of_string "b"; []; of_string "c"].
Proof. reflexivity. Qed.

Example replace_ex :
  replace (of_string "ab") (of_string "X") (of_string "aababcab")
  = of_string "aXXcX".
Proof. reflexivity. Qed.

(** ** Facts about searching *)

Section Search.

Implicit Types (sub s t : str) (c : char) (i k : nat).

Lemma startswith_app sub s :
  startswith sub s = true <-> exists t, s = sub ++ t.
Proof.
  revert s. induction sub as [|a sub IH]; intros s; simpl.
  - split; [intros _; exists s; reflexivity | reflexivity].
  - destruct s as [|b s].
    + split; [discriminate | intros [t Ht]; discriminate Ht].
    + rewrite andb_true_iff, N.eqb_eq, IH. split.
      * intros [-> [t ->]]. exists t. reflexivity.
      * intros [t Ht]. injection Ht as -> ->. split; [reflexivity | eauto].
Qed.

Lemma startswith_single c s :
  startswith [c] s = true <-> nth_error s 0 = Some c.
Proof.
  destruct s as [|b s]; simpl.
  - split; discriminate.
  - rewrite andb_true_r, N.eqb_eq. split; [intros -> | intros [= ->]]; reflexivity.
Qed.

Lemma find_Some sub s i :
  find sub s = Some i ->
  i <= length s /\ startswith sub (skipn i s) = true
  /\ forall k, k < i -> startswith sub (skipn k s) = false.
Proof.
  revert i. induction s as [|b s IH]; intros i; simpl find.
  - destruct (startswith sub []) eqn:E; [|discriminate].
    intros [= <-]. repeat split; [lia | exact E | intros k Hk; lia].
  - destruct (startswith sub (b :: s)) eqn:E.
    + intros [= <-]. repeat split; [simpl; lia | exact E | intros k Hk; lia].
    + destruct (find sub s) as [i'|] eqn:F; [|discriminate].
      intros [= <-]. destruct (IH i' eq_refl) as (Hle & Hat & Hmin).
      repeat split; [simpl; lia | exact Hat |].
      intros [|k] Hk; [exact E | apply Hmin; lia].
Qed.

Lemma find_None sub s k :
  find sub s = None -> startswith sub (skipn k s) = false.
Proof.
  revert k. induction s as [|b s IH]; intros k; simpl find.
  - destruct (startswith sub []) eqn:E; [discriminate|].
    intros _. rewrite skipn_nil. exact E.
  - destruct (startswith sub (b :: s)) eqn:E; [discriminate|].
    destruct (find sub s) eqn:F; [discriminate|].
    intros _. destruct k as [|k]; [exact E | apply IH; reflexivity].
Qed.

Lemma find_total sub s k :
  startswith sub (skipn k s) = true -> exists i, find sub s = Some i /\ i <= k.
Proof.
  intros H. destruct (find sub s) as [i|] eqn:F.
  - exists i. split; [reflexivity|].
    destruct (find_Some _ _ _ F) as (_ & _ & Hmin).
    destruct (le_lt_dec i k) as [Hle|Hlt]; [exact Hle|].
    rewrite (Hmin k Hlt) in H. discriminate.
  - rewrite (find_None _ _ k F) in H. discriminate.
Qed.

Lemma nth_error_skipn_0 s k : nth_error (skipn k s) 0 = nth_error s k.
Proof.
  rewrite nth_error_skipn, Nat.add_0_r. reflexivity.
Qed.

(** Searching for one character. *)
Lemma find_char_Some c s i :
  find [c] s = Some i ->
  nth_error s i = Some c /\ forall k, k < i -> nth_error s k <> Some c.
Proof.
  intros F. destruct (find_Some _ _ _ F) as (_ & Hat & Hmin). split.
  - rewrite <- nth_error_skipn_0. apply startswith_single. exact Hat.
  - intros k Hk Hc. specialize (Hmin k Hk).
    rewrite <- nth_error_skipn_0 in Hc. apply startswith_single in Hc.
    congruence.
Qed.

Lemma find_char_None c s : find [c] s = None <-> ~ In c s.
Proof.
  split.
  - intros F Hin. apply In_nth_error in Hin as [k Hk].
    rewrite <- nth_error_skipn_0 in Hk. apply startswith_single in Hk.
    rewrite (find_None _ _ k F) in Hk. discriminate.
  - intros Hnin. destruct (find [c] s) as [i|] eqn:F; [|reflexivity].
    destruct (find_char_Some _ _ _ F) as [Hat _].
    apply nth_error_In in Hat. contradiction.
Qed.

Lemma contains_char c s : contains [c] s = true <-> In c s.
Proof.
  unfold contains. destruct (find [c] s) as [i|] eqn:F.
  - split; [intros _ | reflexivity].
    destruct (find_char_Some _ _ _ F) as [Hat _]. eapply nth_error_In, Hat.
  - split; [discriminate|]. intros Hin. apply find_char_None in F. contradiction.
Qed.

Lemma contains_char_false c s : contains [c] s = false <-> ~ In c s.
Proof.
  rewrite <- contains_char. destruct (contains [c] s); split; congruence.
Qed.

(** A character of [s[a:b]] sits at an index of [s] in the range. *)
Lemma In_slice s a b x :
  In x (slice s a b) -> exists k, a <= k < b /\ nth_error s k = Some x.
Proof.
  unfold slice. intros Hin. apply In_nth_error in Hin as [n Hn].
  assert (Hlt : n < b - a).
  { destruct (le_lt_dec (b - a) n) as [Hge|]; [|assumption].
    rewrite nth_error_firstn in Hn.
    destruct (Nat.ltb_spec n (b - a)); [lia | discriminate]. }
  rewrite nth_error_firstn in Hn.
  destruct (Nat.ltb_spec n (b - a)); [|lia].
  rewrite nth_error_skipn in Hn. exists (a + n). split; [lia | exact Hn].
Qed.

Lemma find_from_char_Some c s start j :
  find_from [c] s start = Some j ->
  start <= j /\ nth_error s j = Some c
  /\ forall k, start <= k < j -> nth_error s k <> Some c.
Proof.
  unfold find_from. destruct (Nat.ltb_spec (length s) start); [discriminate|].
  destruct (find [c] (skipn start s)) as [j'|] eqn:F; [|discriminate].
  intros [= <-]. destruct (find_char_Some _ _ _ F) as [Hat Hmin].
  rewrite nth_error_skipn in Hat. repeat split; [lia | exact Hat |].
  intros k [Hk1 Hk2] Hc. apply (Hmin (k - start)); [lia|].
  rewrite nth_error_skipn. replace (start + (k - start)) with k by lia. exact Hc.
Qed.

End Search.

(** ** Facts about [split], [replace] and [rstrip] *)

Section Rewriting.

Implicit Types (old new sep s t : str) (c : char) (i k : nat).

Lemma str_length_ind (P : str -> Prop) :
  (forall s, (forall t, length t < length s -> P t) -> P s) ->
  forall s, P s.
Proof.
  intros step s. remember (length s) as n eqn:Hn. revert s Hn.
  induction n as [n IH] using lt_wf_ind. intros s ->.
  apply step. intros t Ht. exact (IH _ Ht t eq_refl).
Qed.

Lemma split_unfold c sep s :
  split (c :: sep) s =
  match find (c :: sep) s with
  | None => [s]
  | Some i => firstn i s :: split (c :: sep) (skipn (i + length (c :: sep)) s)
  end.
Proof.
  funelim (split (c :: sep) s); rewrite e; reflexivity.
Qed.

Lemma replace_unfold c old new s :
  replace (c :: old) new s =
  match find (c :: old) s with
  | None => s
  | Some i =>
      firstn i s ++ new ++ replace (c :: old) new (skipn (i + length (c :: old)) s)
  end.
Proof.
  funelim (replace (c :: old) new s); rewrite e; reflexivity.
Qed.

(** What follows a found occurrence is shorter than the string. *)
Lemma find_rest_shorter c sep s i :
  find (c :: sep) s = Some i ->
  length (skipn (i + length (c :: sep)) s) < length s.
Proof.
  intros F. destruct s as [|d s]; [discriminate F|].
  rewrite length_skipn. simpl length. lia.
Qed.

Lemma In_replace c old new s x :
  In x (replace (c :: old) new s) -> In x s \/ In x new.
Proof.
  induction s as [s IH] using str_length_ind.
  rewrite replace_unfold. destruct (find (c :: old) s) as [i|] eqn:F.
  - rewrite !in_app_iff. intros [H | [H | H]].
    + left. rewrite <- (firstn_skipn i s). apply in_or_app. left. exact H.
    + right. exact H.
    + destruct (IH _ (find_rest_shorter _ _ _ _ F) H) as [H' | H']; [left | right; exact H'].
      rewrite <- (firstn_skipn (i + length (c :: old)) s).
      apply in_or_app. right. exact H'.
  - intros H. left. exact H.
Qed.

Lemma map_subst_char_id a b s : ~ In a s -> map (subst_char a b) s = s.
Proof.
  induction s as [|c s IH]; simpl; intros Hnin; [reflexivity|].
  unfold subst_char at 1. destruct (N.eqb_spec c a) as [->|_].
  - exfalso. apply Hnin. left. reflexivity.
  - rewrite IH; [reflexivity | intros H; apply Hnin; right; exact H].
Qed.

Lemma replace_char_map a b s : replace [a] [b] s = map (subst_char a b) s.
Proof.
  induction s as [s IH] using str_length_ind.
  rewrite replace_unfold. destruct (find [a] s) as [i|] eqn:F.
  - pose proof (find_rest_shorter _ _ _ _ F) as Hlt.
    destruct (find_char_Some _ _ _ F) as [Hat Hmin].
    rewrite (IH _ Hlt). simpl length.
    replace (map (subst_char a b) s)
      with (map (subst_char a b) (firstn i s ++ skipn i s))
      by (rewrite firstn_skipn; reflexivity).
    rewrite map_app. f_equal.
    + symmetry. apply map_subst_char_id. intros Hin.
      apply In_nth_error in Hin as [k Hk].
      assert (Hki : k < i).
      { destruct (le_lt_dec i k) as [Hge|]; [|assumption].
        rewrite nth_error_firstn in Hk.
        destruct (Nat.ltb_spec k i); [lia | discriminate]. }
      rewrite nth_error_firstn in Hk.
      destruct (Nat.ltb_spec k i); [|lia]. exact (Hmin k Hki Hk).
    + rewrite <- nth_error_skipn_0 in Hat.
      replace (i + 1) with (1 + i) by lia. rewrite <- skipn_skipn.
      destruct (skipn i s) as [|d u]; [discriminate Hat|].
      injection Hat as ->. simpl. unfold subst_char at 2.
      rewrite N.eqb_refl. reflexivity.
  - symmetry. apply map_subst_char_id. apply find_char_None. exact F.
Qed.

Lemma no_trailing_space_app s t :
  t <> [] -> no_trailing_space t -> no_trailing_space (s ++ t).
Proof.
  intros Hne Ht u c Heq.
  destruct (exists_last Hne) as (t' & d & ->).
  rewrite app_assoc in Heq. apply app_inj_tail in Heq as [_ <-].
  exact (Ht t' d eq_refl).
Qed.

Lemma no_trailing_space_suffix s t :
  no_trailing_space (s ++ t) -> no_trailing_space t.
Proof.
  intros H u c ->. apply (H (s ++ u) c). rewrite app_assoc. reflexivity.
Qed.

Lemma rstrip_cons c s :
  rstrip (c :: s) =
  match rstrip s with
  | [] => if isspace c then [] else [c]
  | t => c :: t
  end.
Proof. reflexivity. Qed.

Lemma rstrip_decompose s :
  exists ws, s = rstrip s ++ ws /\ Forall (fun c => isspace c = true) ws.
Proof.
  induction s as [|c s (ws & Heq & Hws)].
  - exists []. split; [reflexivity | constructor].
  - rewrite rstrip_cons. destruct (rstrip s) as [|d t] eqn:R.
    + destruct (isspace c) eqn:Hc.
      * exists (c :: ws). simpl in Heq. subst ws. split; [reflexivity|].
        constructor; assumption.
      * exists ws. simpl in *. subst ws. split; [reflexivity | assumption].
    + exists ws. split; [|assumption]. simpl. f_equal. exact Heq.
Qed.

Lemma rstrip_no_trailing_space s : no_trailing_space (rstrip s).
Proof.
  induction s as [|c s IH].
  - intros [|? ?] d Heq; discriminate Heq.
  - rewrite rstrip_cons. destruct (rstrip s) as [|d t] eqn:R.
    + destruct (isspace c) eqn:Hc.
      * intros [|? ?] e Heq; discriminate Heq.
      * intros [|? [|? ?]] e Heq; try discriminate Heq.
        injection Heq as <-. exact Hc.
    + apply (no_trailing_space_app [c]); [discriminate | exact IH].
Qed.

Lemma In_rstrip s x : In x (rstrip s) -> In x s.
Proof.
  destruct (rstrip_decompose s) as (ws & Heq & _).
  intros H. rewrite Heq. apply in_or_app. left. exact H.
Qed.

Lemma replace_no_trailing_space c old new s :
  new <> [] -> no_trailing_space new ->
  no_trailing_space s -> no_trailing_space (replace (c :: old) new s).
Proof.
  intros Hne Hnew. induction s as [s IH] using str_length_ind. intros Hs.
  rewrite replace_unfold. destruct (find (c :: old) s) as [i|] eqn:F; [|exact Hs].
  pose proof (find_rest_shorter _ _ _ _ F) as Hlt.
  set (rest := skipn (i + length (c :: old)) s) in *.
  assert (Hrest : no_trailing_space (replace (c :: old) new rest)).
  { apply IH; [exact Hlt|].
    apply (no_trailing_space_suffix (firstn (i + length (c :: old)) s)).
    unfold rest. rewrite firstn_skipn. exact Hs. }
  apply no_trailing_space_app.
  - destruct new; [contradiction Hne; reflexivity | discriminate].
  - destruct (replace (c :: old) new rest) as [|d u] eqn:R.
    + rewrite app_nil_r. exact Hnew.
    + apply no_trailing_space_app; [discriminate | exact Hrest].
Qed.

End Rewriting.

(** ** Counting occurrences *)

Section Counting.

Implicit Types (sub sep s t : str) (c : char) (i k n : nat).

Lemma occurrences_none sub s :
  (forall k, startswith sub (skipn k s) = false) -> occurrences sub s = 0.
Proof.
  induction s as [|d s IH]; intros H; simpl occurrences.
  - rewrite (H 0 : startswith sub [] = false). reflexivity.
  - rewrite (H 0 : startswith sub (d :: s) = false).
    rewrite IH; [reflexivity|]. intros k. exact (H (S k)).
Qed.

Lemma occurrences_skipn sub n : forall s,
  n <= length s ->
  (forall k, k < n -> startswith sub (skipn k s) = false) ->
  occurrences sub s = occurrences sub (skipn n s).
Proof.
  induction n as [|n IH]; intros s Hlen H; [reflexivity|].
  destruct s as [|d s]; [simpl in Hlen; lia|].
  simpl occurrences. rewrite (H 0 ltac:(lia) : startswith sub (d :: s) = false).
  simpl. apply IH; [simpl in Hlen; lia|].
  intros k Hk. apply (H (S k)). lia.
Qed.

Lemma head_not_in_tail_unbordered c sep : ~ In c sep -> unbordered (c :: sep).
Proof.
  intros Hnin k t [Hk1 Hk2]. simpl in Hk2.
  destruct k as [|k]; [lia|]. simpl skipn.
  destruct (startswith (c :: sep) (skipn k (sep ++ t))) eqn:E; [|reflexivity].
  exfalso. apply Hnin. apply startswith_app in E as [u Hu].
  assert (Hc : nth_error (skipn k (sep ++ t)) 0 = Some c)
    by (rewrite Hu; reflexivity).
  rewrite nth_error_skipn_0, nth_error_app1 in Hc by lia.
  eapply nth_error_In, Hc.
Qed.

Lemma occurrences_after_match c sep t :
  unbordered (c :: sep) ->
  occurrences (c :: sep) ((c :: sep) ++ t) = S (occurrences (c :: sep) t).
Proof.
  intros Hub. simpl app. simpl occurrences at 1.
  assert (Hm : startswith (c :: sep) (c :: sep ++ t) = true)
    by (apply startswith_app; exists t; reflexivity).
  simpl in Hm. rewrite Hm. simpl. f_equal.
  rewrite (occurrences_skipn (c :: sep) (length sep) (sep ++ t)).
  - rewrite skipn_app, skipn_all, Nat.sub_diag. reflexivity.
  - rewrite length_app. lia.
  - intros k Hk. apply (Hub (S k) t). simpl. lia.
Qed.

(** [split] cuts at every occurrence of an unbordered separator. *)
Lemma split_length c sep s :
  unbordered (c :: sep) ->
  length (split (c :: sep) s) = S (occurrences (c :: sep) s).
Proof.
  intros Hub. induction s as [s IH] using str_length_ind.
  rewrite split_unfold. destruct (find (c :: sep) s) as [i|] eqn:F.
  - change (length (firstn i s :: ?l)) with (S (length l)).
    rewrite (IH _ (find_rest_shorter _ _ _ _ F)). f_equal.
    destruct (find_Some _ _ _ F) as (Hle & Hat & Hmin).
    rewrite (occurrences_skipn (c :: sep) i s Hle Hmin).
    apply startswith_app in Hat as [t Ht].
    rewrite (Nat.add_comm i), <- skipn_skipn, Ht.
    rewrite occurrences_after_match by exact Hub.
    rewrite skipn_app, skipn_all, Nat.sub_diag. reflexivity.
  - rewrite occurrences_none; [reflexivity|].
    intros k. apply find_None. exact F.
Qed.

Lemma SPAN_unbordered : unbordered SPAN.
Proof.
  apply head_not_in_tail_unbordered. intros H.
  repeat (destruct H as [H|H]; [discriminate H|]). exact H.
Qed.

End Counting.

Section SpecAgreement.

Implicit Types (old new s t : str) (c : char) (i k : nat).

Lemma drop_while_snoc f s c :
  Spec.drop_while f (s ++ [c]) =
  match Spec.drop_while f s with
  | [] => if f c then [] else [c]
  | t => t ++ [c]
  end.
Proof.
  induction s as [|d s IH]; simpl; [reflexivity|].
  destruct (f d); [exact IH | reflexivity].
Qed.

Lemma rstrip_spec s : rstrip s = Spec.strip_trailing_whitespace s.
Proof.
  unfold Spec.strip_trailing_whitespace.
  induction s as [|c s IH]; [reflexivity|].
  rewrite rstrip_cons, IH. simpl rev. rewrite drop_while_snoc.
  destruct (Spec.drop_while isspace (rev s)) as [|d u]; simpl.
  - destruct (isspace c); reflexivity.
  - rewrite rev_app_distr. simpl.
    destruct (rev u ++ [d]) eqn:E; [|reflexivity].
    apply app_eq_nil in E as [_ E]. discriminate E.
Qed.

Lemma substitute_skip old new k : forall s,
  Spec.substitute old new k s = Spec.substitute old new 0 (skipn k s).
Proof.
  induction k as [|k IH]; intros [|d s]; try reflexivity.
  simpl. apply IH.
Qed.

Lemma substitute_no_match old new s :
  (forall k, startswith old (skipn k s) = false) ->
  Spec.substitute old new 0 s = s.
Proof.
  induction s as [|d s IH]; intros H; [reflexivity|].
  simpl Spec.substitute. rewrite (H 0 : startswith old (d :: s) = false).
  f_equal. apply IH. intros k. exact (H (S k)).
Qed.

Lemma substitute_prefix old new i : forall s,
  i <= length s ->
  (forall k, k < i -> startswith old (skipn k s) = false) ->
  Spec.substitute old new 0 s = firstn i s ++ Spec.substitute old new 0 (skipn i s).
Proof.
  induction i as [|i IH]; intros s Hlen H; [reflexivity|].
  destruct s as [|d s]; [simpl in Hlen; lia|].
  simpl Spec.substitute.
  rewrite (H 0 ltac:(lia) : startswith old (d :: s) = false).
  simpl. f_equal. apply IH; [simpl in Hlen; lia|].
  intros k Hk. apply (H (S k)). lia.
Qed.

Lemma replace_spec c old new s :
  replace (c :: old) new s = Spec.substitute (c :: old) new 0 s.
Proof.
  induction s as [s IH] using str_length_ind.
  rewrite replace_unfold. destruct (find (c :: old) s) as [i|] eqn:F.
  - rewrite (IH _ (find_rest_shorter _ _ _ _ F)).
    destruct (find_Some _ _ _ F) as (Hle & Hat & Hmin).
    rewrite (substitute_prefix (c :: old) new i s Hle Hmin). f_equal.
    rewrite (Nat.add_comm i), <- skipn_skipn.
    pose proof Hat as Hat'. apply startswith_app in Hat' as [t Ht].
    rewrite Ht in *. simpl app. simpl Spec.substitute.
    simpl in Hat. rewrite Hat. f_equal.
    rewrite Nat.sub_0_r. symmetry. apply substitute_skip.
  - symmetry. apply substitute_no_match. intros k. apply find_None. exact F.
Qed.

Lemma clean_desc_spec raw : clean_desc raw = Spec.transform_description raw.
Proof.
  unfold clean_desc, Spec.transform_description.
  rewrite replace_char_map, rstrip_spec.
  change CODE_GT with (LT :: tl CODE_GT). apply replace_spec.
Qed.

End SpecAgreement.

Section Extraction.

Implicit Types (p name desc raw : str) (r : list str) (e : exn).

Lemma get_name_Ok r name : get_name r = Ok name <-> field_slice r 1 [LT] 1 name.
Proof.
  unfold get_name, field_slice, getitem, index, index_from, bind. split.
  - destruct (nth_error r 1) as [r1|]; [|discriminate].
    destruct (find [GT] r1) as [i|] eqn:Ei; [|discriminate].
    destruct (find_from [LT] r1 1) as [j|] eqn:Ej; [|discriminate].
    intros [= <-]. exists r1, i, j. repeat split; assumption.
  - intros (r1 & i & j & -> & -> & -> & ->). reflexivity.
Qed.

Lemma get_name_Raise r e : get_name r = Raise e <-> field_error r 1 [LT] 1 e.
Proof.
  unfold get_name, field_error, getitem, index, index_from, bind.
  destruct (nth_error r 1) as [r1|] eqn:E1.
  - assert (Hlen : ~ length r <= 1)
      by (intros H; apply nth_error_None in H; congruence).
    destruct (find [GT] r1) as [i|] eqn:Ei;
      [destruct (find_from [LT] r1 1) as [j|] eqn:Ej|].
    + split; [discriminate|].
      intros [[_ H] | [_ (rn & [= <-] & [H | H])]]; [lia | congruence..].
    + split.
      * intros [= <-]. right. split; [reflexivity|]. exists r1. auto.
      * intros [[_ H] | [-> _]]; [lia | reflexivity].
    + split.
      * intros [= <-]. right. split; [reflexivity|]. exists r1. auto.
      * intros [[_ H] | [-> _]]; [lia | reflexivity].
  - apply nth_error_None in E1. split.
    + intros [= <-]. left. auto.
    + intros [[-> _] | [_ (rn & H & _)]]; [reflexivity|].
      apply nth_error_None in E1. congruence.
Qed.

Lemma get_raw_desc_Ok r raw :
  get_raw_desc r = Ok raw <-> field_slice r 4 TD_END 2 raw.
Proof.
  unfold get_raw_desc, field_slice, getitem, index, index_from, bind. split.
  - destruct (nth_error r 4) as [r4|]; [|discriminate].
    destruct (find [GT] r4) as [i|] eqn:Ei; [|discriminate].
    destruct (find_from TD_END r4 2) as [j|] eqn:Ej; [|discriminate].
    intros [= <-]. exists r4, i, j. repeat split; assumption.
  - intros (r4 & i & j & -> & -> & -> & ->). reflexivity.
Qed.

Lemma get_raw_desc_Raise r e :
  get_raw_desc r = Raise e <-> field_error r 4 TD_END 2 e.
Proof.
  unfold get_raw_desc, field_error, getitem, index, index_from, bind.
  destruct (nth_error r 4) as [r4|] eqn:E4.
  - assert (Hlen : ~ length r <= 4)
      by (intros H; apply nth_error_None in H; congruence).
    destruct (find [GT] r4) as [i|] eqn:Ei;
      [destruct (find_from TD_END r4 2) as [j|] eqn:Ej|].
    + split; [discriminate|].
      intros [[_ H] | [_ (rn & [= <-] & [H | H])]]; [lia | congruence..].
    + split.
      * intros [= <-]. right. split; [reflexivity|]. exists r4. auto.
      * intros [[_ H] | [-> _]]; [lia | reflexivity].
    + split.
      * intros [= <-]. right. split; [reflexivity|]. exists r4. auto.
      * intros [[_ H] | [-> _]]; [lia | reflexivity].
  - apply nth_error_None in E4. split.
    + intros [= <-]. left. auto.
    + intros [[-> _] | [_ (rn & H & _)]]; [reflexivity|].
      apply nth_error_None in E4. congruence.
Qed.

End Extraction.

Section Runs.

Implicit Types (p name desc raw : str) (ps : list str) (f : file) (e : exn).

Lemma extract_Ok p name desc :
  extract p = Ok (name, desc) <->
  exists raw,
    field_slice (split TR p) 1 [LT] 1 name
    /\ field_slice (split TR p) 4 TD_END 2 raw
    /\ desc = clean_desc raw /\ ~ In LT desc /\ ~ In DQ desc.
Proof.
  unfold extract. split.
  - destruct (get_name (split TR p)) as [n|] eqn:En; [|discriminate].
    apply get_name_Ok in En.
    destruct (get_raw_desc (split TR p)) as [raw|] eqn:Er; [|discriminate].
    unfold bind, assert.
    destruct (contains [LT] (clean_desc raw)) eqn:C1; [discriminate|].
    destruct (contains [DQ] (clean_desc raw)) eqn:C2; [discriminate|].
    intros [= <- <-]. exists raw. apply get_raw_desc_Ok in Er.
    apply contains_char_false in C1, C2. repeat split; assumption.
  - intros (raw & Hn & Hr & Hd & H1 & H2).
    apply get_name_Ok in Hn. apply get_raw_desc_Ok in Hr.
    subst desc. rewrite Hn, Hr. unfold bind, assert.
    apply contains_char_false in H1, H2. rewrite H1, H2. reflexivity.
Qed.

Lemma extract_Raise p e : extract p = Raise e <-> extract_error p e.
Proof.
  unfold extract, extract_error.
  destruct (get_name (split TR p)) as [n|e1] eqn:En.
  - assert (Hn : forall e', ~ field_error (split TR p) 1 [LT] 1 e')
      by (intros e' H; apply get_name_Raise in H; congruence).
    apply get_name_Ok in En.
    destruct (get_raw_desc (split TR p)) as [raw|e4] eqn:Er.
    + assert (Hr : forall e', ~ field_error (split TR p) 4 TD_END 2 e')
        by (intros e' H; apply get_raw_desc_Raise in H; congruence).
      unfold bind, assert.
      destruct (contains [LT] (clean_desc raw)) eqn:C1; simpl.
      * apply contains_char in C1. split.
        -- intros [= <-]. right. split; [eauto|]. right. exists raw.
           apply get_raw_desc_Ok in Er. auto.
        -- intros [H | [_ [H | (raw' & H & -> & _)]]];
             [destruct (Hn _ H) | destruct (Hr _ H) |].
           apply get_raw_desc_Ok in H. congruence.
      * destruct (contains [DQ] (clean_desc raw)) eqn:C2; simpl.
        -- apply contains_char in C2. split.
           ++ intros [= <-]. right. split; [eauto|]. right. exists raw.
              apply get_raw_desc_Ok in Er. auto.
           ++ intros [H | [_ [H | (raw' & H & -> & _)]]];
                [destruct (Hn _ H) | destruct (Hr _ H) |].
              apply get_raw_desc_Ok in H. congruence.
        -- apply contains_char_false in C1, C2. split; [discriminate|].
           intros [H | [_ [H | (raw' & H & _ & Hbad)]]];
             [destruct (Hn _ H) | destruct (Hr _ H) |].
           apply get_raw_desc_Ok in H. assert (raw' = raw) as -> by congruence.
           tauto.
    + unfold bind. split.
      * intros [= <-]. right. split; [eauto|]. left.
        apply get_raw_desc_Raise. exact Er.
      * intros [H | [_ [H | (raw' & H & _)]]].
        -- destruct (Hn _ H).
        -- apply get_raw_desc_Raise in H. congruence.
        -- apply get_raw_desc_Ok in H. congruence.
  - unfold bind. split.
    + intros [= <-]. left. apply get_name_Raise. exact En.
    + intros [H | [(name & H) _]].
      * apply get_name_Raise in H. congruence.
      * apply get_name_Ok in H. congruence.
Qed.

Lemma unlines_app l1 l2 : unlines (l1 ++ l2) = unlines l1 ++ unlines l2.
Proof. unfold unlines. rewrite map_app, concat_app. reflexivity. Qed.

Lemma unlines_cons l ls : unlines (l :: ls) = l ++ [NL] ++ unlines ls.
Proof. unfold unlines. simpl. rewrite <- app_assoc. reflexivity. Qed.

Lemma loop_file ps : forall f,
  fst (loop ps f) = f ++ unlines (map entry_line (written ps)).
Proof.
  induction ps as [|p ps IH]; intros f; cbn [loop written].
  - simpl. rewrite app_nil_r. reflexivity.
  - destruct (extract p) as [[name desc]|e].
    + rewrite IH. cbn [map]. rewrite unlines_cons. unfold print, entry_line.
      cbn [fst snd]. rewrite <- !app_assoc. reflexivity.
    + simpl. rewrite app_nil_r. reflexivity.
Qed.

Lemma loop_outcome ps : forall f,
  match snd (loop ps f) with
  | None => all_extracted ps
  | Some e => stops_at ps e
  end.
Proof.
  unfold all_extracted, stops_at.
  induction ps as [|p ps IH]; intros f; simpl; [reflexivity|].
  destruct (extract p) as [[name desc]|e] eqn:E; simpl.
  - specialize (IH (print (format_entry name desc) f)).
    destruct (snd (loop ps (print (format_entry name desc) f))) as [e|].
    + destruct IH as (pre & q & post & -> & Hpre & Hq).
      exists (p :: pre), q, post. simpl. rewrite E, Hpre. auto.
    + rewrite IH. reflexivity.
  - exists [], p, ps. auto.
Qed.

Lemma loop_runs_loop ps : forall f f' o,
  loop_runs ps f f' o <-> loop ps f = (f', o).
Proof.
  induction ps as [|p ps IH]; intros f f' o; simpl.
  - split.
    + intros H. inversion H. reflexivity.
    + intros [= <- <-]. constructor.
  - split.
    + intros H. inversion H as [| ? ? ? ? E | ? ? ? name desc ? ? E Hrest]; subst.
      * rewrite E. reflexivity.
      * rewrite E. apply IH. exact Hrest.
    + destruct (extract p) as [[name desc]|e] eqn:E.
      * intros H. apply IH in H. eapply loop_next; eassumption.
      * intros [= <- <-]. apply loop_raise. exact E.
Qed.

Lemma loop_runs_functional ps f f1 o1 :
  loop_runs ps f f1 o1 ->
  forall f2 o2, loop_runs ps f f2 o2 -> f1 = f2 /\ o1 = o2.
Proof.
  induction 1 as [f | p ps f e E | p ps f name desc f' o E _ IH];
    intros f2 o2 H2; inversion H2; subst.
  - auto.
  - split; congruence.
  - congruence.
  - congruence.
  - match goal with
    | E' : extract p = Ok _ |- _ => rewrite E in E'; injection E' as <- <-
    end.
    apply IH. assumption.
Qed.

End Runs.

Section Script.

Implicit Types (page p name desc : str) (ps pre post : list str) (e : exn).

Lemma main_loop page :
  main page =
  let st := loop (segments page) (print HEADER []) in
  match snd st with
  | Some e => (fst st, Some e)
  | None => (print FOOTER (fst st), None)
  end.
Proof.
  unfold main, segments. cbv zeta.
  destruct (loop (skipn 1 (split SPAN page)) (print HEADER [])) as [f [e|]];
    reflexivity.
Qed.

Lemma outcome_loop page :
  outcome page = snd (loop (segments page) (print HEADER [])).
Proof.
  unfold outcome. rewrite main_loop. cbv zeta.
  destruct (snd (loop (segments page) (print HEADER []))); reflexivity.
Qed.

Lemma print_unlines x ls : print x (unlines ls) = unlines (ls ++ [x]).
Proof.
  unfold print. rewrite unlines_app, (unlines_cons x []). reflexivity.
Qed.

Lemma output_aborted page e :
  outcome page = Some e ->
  output page = unlines (HEADER :: map entry_line (pairs page)).
Proof.
  rewrite outcome_loop. unfold output. rewrite main_loop. cbv zeta.
  intros ->. cbn [fst]. rewrite loop_file.
  change (print HEADER []) with (unlines [HEADER]).
  rewrite <- unlines_app. reflexivity.
Qed.

Lemma output_completed page :
  outcome page = None ->
  output page = unlines (HEADER :: map entry_line (pairs page) ++ [FOOTER]).
Proof.
  rewrite outcome_loop. unfold output. rewrite main_loop. cbv zeta.
  intros ->. cbn [fst]. rewrite loop_file.
  change (print HEADER []) with (unlines [HEADER]).
  rewrite <- unlines_app, print_unlines. reflexivity.
Qed.

Lemma output_pairs page :
  output page =
  unlines (HEADER :: map entry_line (pairs page)
             ++ match outcome page with None => [FOOTER] | Some _ => [] end).
Proof.
  destruct (outcome page) as [e|] eqn:E.
  - rewrite app_nil_r. eapply output_aborted, E.
  - apply output_completed, E.
Qed.

Lemma outcome_cases page :
  match outcome page with
  | None => all_extracted (segments page)
  | Some e => stops_at (segments page) e
  end.
Proof. rewrite outcome_loop. apply loop_outcome. Qed.

Lemma map_extract_succeeds ps l :
  map extract ps = map Ok l -> Forall succeeds ps.
Proof.
  revert l. induction ps as [|p ps IH]; intros [|nd l] H; try discriminate H.
  - constructor.
  - injection H as Hp Hps. constructor; [exists nd; exact Hp | eapply IH, Hps].
Qed.

Lemma loop_stops pre : forall p post e f,
  Forall succeeds pre -> extract p = Raise e ->
  snd (loop (pre ++ p :: post) f) = Some e.
Proof.
  induction pre as [|q pre IH]; intros p post e f Hpre Hp; simpl.
  - rewrite Hp. reflexivity.
  - inversion Hpre as [|? ? [[name desc] Hq] Hrest]; subst.
    rewrite Hq. apply IH; assumption.
Qed.

Lemma In_written ps nd :
  In nd (written ps) -> exists p, In p ps /\ extract p = Ok nd.
Proof.
  induction ps as [|p ps IH]; simpl; [contradiction|].
  destruct (extract p) as [nd'|e] eqn:E; simpl; [|contradiction].
  intros [<- | H].
  - exists p. auto.
  - destruct (IH H) as (q & Hq & Eq). exists q. auto.
Qed.

Lemma get_name_no_LT r name : get_name r = Ok name -> ~ In LT name.
Proof.
  intros H Hin. apply get_name_Ok in H as (r1 & i & j & _ & _ & Hj & ->).
  apply In_slice in Hin as (k & [Hk1 Hk2] & Hk).
  apply find_from_char_Some in Hj as (_ & _ & Hmin).
  apply (Hmin k); [lia | exact Hk].
Qed.

Lemma clean_desc_no_NL raw : ~ In NL (clean_desc raw).
Proof.
  unfold clean_desc. change CODE_GT with (LT :: tl CODE_GT). intros H.
  apply In_replace in H as [H | [H | []]]; [|discriminate H].
  apply In_rstrip in H. rewrite replace_char_map in H.
  apply in_map_iff in H as (c & Hc & _). unfold subst_char in Hc.
  destruct (N.eqb_spec c NL); [discriminate Hc | congruence].
Qed.

Lemma clean_desc_no_trailing_space raw : no_trailing_space (clean_desc raw).
Proof.
  unfold clean_desc. change CODE_GT with (LT :: tl CODE_GT).
  apply replace_no_trailing_space.
  - discriminate.
  - intros [|? [|? ?]] x Heq; try discriminate Heq.
    injection Heq as <-. reflexivity.
  - apply rstrip_no_trailing_space.
Qed.

Lemma In_format_entry x name desc :
  In x (format_entry name desc) <->
  In x name \/ In x desc
  \/ In x (of_string "    {@" ++ [DQ; DQ] ++ of_string ", @" ++ [DQ; DQ]
           ++ of_string "},").
Proof.
  unfold format_entry. rewrite !in_app_iff. simpl. tauto.
Qed.

End Script.

(** ** Properties of the output *)

(** C1, as stated: every written (name, description) pair is free of ['<']
    and of the double quote.  It fails: the two assertions look at the
    description only, and a name with double quotes is written as it is. *)
Lemma quoted_name_is_written :
  completes page_fifteen
  /\ pairs page_fifteen =
       [(of_string "The " ++ [DQ] ++ of_string "15" ++ [DQ] ++ of_string " puzzle",
         of_string "Slide tiles.")]
  /\ ~ (forall name desc,
          In (name, desc) (pairs page_fifteen) ->
          ~ In LT name /\ ~ In DQ name /\ ~ In LT desc /\ ~ In DQ desc).
Proof.
  split; [reflexivity|]. split; [reflexivity|]. intros H.
  destruct (H _ _ (or_introl eq_refl)) as (_ & Hq & _).
  apply Hq. vm_compute. tauto.
Qed.

(** C1, amended: the entries of the file are those of [pairs page]; every
    written description contains neither ['<'] nor the double quote, and
    every written name contains no ['<'] (the search that ends the name
    stops at the first one); a name may contain double quotes. *)
Theorem written_pairs_invariant page :
  output page =
    unlines (HEADER :: map entry_line (pairs page)
               ++ match outcome page with None => [FOOTER] | Some _ => [] end)
  /\ forall name desc,
       In (name, desc) (pairs page) ->
       ~ In LT name /\ ~ In LT desc /\ ~ In DQ desc.
Proof.
  split; [apply output_pairs|]. intros name desc Hin.
  apply In_written in Hin as (p & _ & Hp).
  apply extract_Ok in Hp as (raw & Hn & _ & _ & H1 & H2).
  apply get_name_Ok, get_name_no_LT in Hn. auto.
Qed.

Lemma written_pairs_invariant_witness :
  In (of_string "Net", of_string "Rotate tiles.") (pairs page_net)
  /\ (~ In LT (of_string "Net") /\ ~ In LT (of_string "Rotate tiles.")
      /\ ~ In DQ (of_string "Rotate tiles.")).
Proof.
  split; [vm_compute; left; reflexivity|].
  apply (proj2 (written_pairs_invariant page_net)).
  vm_compute. left. reflexivity.
Defined.

(** C2, as stated: a run either completes or aborts at one of the two
    assertions.  It fails: a segment with fewer than five rows raises
    [IndexError], and a cell without its tag raises [ValueError]. *)
Lemma other_exceptions_are_raised :
  outcome page_two_rows = Some IndexError
  /\ outcome page_no_tag = Some ValueError
  /\ ~ (completes page_two_rows
        \/ exists msg, outcome page_two_rows = Some (AssertionError msg)).
Proof.
  split; [reflexivity|]. split; [reflexivity|].
  unfold completes. change (outcome page_two_rows) with (Some IndexError).
  intros [H | [msg H]]; discriminate H.
Qed.

(** C2, amended: a run either completes, or stops at the first segment that
    raises, and what that segment raises is [IndexError] (it has at most
    four ["<tr>"] parts), [ValueError] (one of the four [index] calls on
    [r[1]] or [r[4]] finds nothing) or the [AssertionError] of one of the two
    assertions on the description. *)
Theorem run_completes_or_raises page :
  completes page
  \/ exists e pre p post,
       outcome page = Some e
       /\ segments page = pre ++ p :: post
       /\ Forall succeeds pre
       /\ extract p = Raise e
       /\ ((e = IndexError /\ length (split TR p) <= 4)
           \/ (e = ValueError
               /\ exists rn,
                    (nth_error (split TR p) 1 = Some rn
                     /\ (find [GT] rn = None \/ find_from [LT] rn 1 = None))
                    \/ (nth_error (split TR p) 4 = Some rn
                        /\ (find [GT] rn = None
                            \/ find_from TD_END rn 2 = None)))
           \/ (exists raw,
                 get_raw_desc (split TR p) = Ok raw
                 /\ e = AssertionError (clean_desc raw)
                 /\ (In LT (clean_desc raw) \/ In DQ (clean_desc raw)))).
Proof.
  unfold completes. pose proof (outcome_cases page) as H.
  destruct (outcome page) as [e|]; [right | left; reflexivity].
  destruct H as (pre & p & post & Hseg & Hpre & Hp).
  exists e, pre, p, post. repeat split; try assumption.
  - eapply map_extract_succeeds, Hpre.
  - apply extract_Raise in Hp.
    destruct Hp as [[[-> Hl] | [-> (rn & Hrn & Hf)]]
                   | [_ [[[-> Hl] | [-> (rn & Hrn & Hf)]]
                        | (raw & Hraw & -> & Hbad)]]].
    + left. split; [reflexivity | lia].
    + right. left. split; [reflexivity|]. exists rn. left. auto.
    + left. split; [reflexivity | lia].
    + right. left. split; [reflexivity|]. exists rn. right. auto.
    + right. right. exists raw. apply get_raw_desc_Ok in Hraw. auto.
Qed.

(** C3, as stated: a run that aborts at an assertion leaves none of the
    earlier entries in the file.  It fails: each entry is printed in its own
    iteration, before the later segments are looked at. *)
Lemma earlier_entries_stay_in_file :
  (exists msg, outcome page_net_bold = Some (AssertionError msg))
  /\ pairs page_net_bold = [(of_string "Net", of_string "Rotate tiles.")]
  /\ output page_net_bold =
       unlines [HEADER; format_entry (of_string "Net") (of_string "Rotate tiles.")]
  /\ ~ (forall nd before after,
          In nd (pairs page_net_bold) ->
          output page_net_bold <> before ++ entry_line nd ++ [NL] ++ after).
Proof.
  split; [eexists; vm_compute; reflexivity|].
  split; [vm_compute; reflexivity|]. split; [vm_compute; reflexivity|].
  intros H.
  apply (H (of_string "Net", of_string "Rotate tiles.") (unlines [HEADER]) []).
  - vm_compute. left. reflexivity.
  - vm_compute. reflexivity.
Qed.

(** C3, amended: a run that aborts leaves in the file the header line and
    the entries of all the segments before the failing one, in order, and
    no closing line. *)
Theorem aborted_run_output page e :
  outcome page = Some e ->
  exists pre p post,
    segments page = pre ++ p :: post
    /\ extract p = Raise e
    /\ map extract pre = map Ok (pairs page)
    /\ output page = unlines (HEADER :: map entry_line (pairs page)).
Proof.
  intros H. pose proof (outcome_cases page) as Hc. rewrite H in Hc.
  destruct Hc as (pre & p & post & Hseg & Hpre & Hp).
  exists pre, p, post. repeat split; try assumption.
  eapply output_aborted, H.
Qed.

Lemma aborted_run_output_witness :
  exists pre p post,
    segments page_net_bold = pre ++ p :: post
    /\ extract p = Raise (AssertionError (of_string "Find <b>all</b> mines."))
    /\ map extract pre = map Ok (pairs page_net_bold)
    /\ output page_net_bold =
         unlines (HEADER :: map entry_line (pairs page_net_bold)).
Proof.
  apply (aborted_run_output page_net_bold). reflexivity.
Defined.

(** C4: a run aborts at an assertion exactly when one of the descriptions
    it extracts (every earlier segment having gone through, and the name and
    the description slice of this one found) still contains ['<'] or a
    double quote after the newline replacement, [rstrip] and the
    [<code>&gt;</code>] substitution. *)
Theorem aborts_at_assertion_iff page :
  (exists msg, outcome page = Some (AssertionError msg))
  <->
  exists pre p post name raw,
    segments page = pre ++ p :: post
    /\ Forall succeeds pre
    /\ get_name (split TR p) = Ok name
    /\ get_raw_desc (split TR p) = Ok raw
    /\ (In LT (clean_desc raw) \/ In DQ (clean_desc raw)).
Proof.
  split.
  - intros [msg H]. pose proof (outcome_cases page) as Hc. rewrite H in Hc.
    destruct Hc as (pre & p & post & Hseg & Hpre & Hp).
    apply extract_Raise in Hp.
    destruct Hp as [[[Hp _] | [Hp _]]
                   | [[name Hn] [[[Hp _] | [Hp _]] | (raw & Hraw & _ & Hbad)]]];
      try discriminate Hp.
    exists pre, p, post, name, raw.
    apply get_name_Ok in Hn. apply get_raw_desc_Ok in Hraw.
    repeat split; try assumption. eapply map_extract_succeeds, Hpre.
  - intros (pre & p & post & name & raw & Hseg & Hpre & Hn & Hraw & Hbad).
    exists (clean_desc raw). rewrite outcome_loop, Hseg.
    apply loop_stops; [exact Hpre|]. apply extract_Raise. right.
    apply get_name_Ok in Hn. apply get_raw_desc_Ok in Hraw.
    split; [exists name; exact Hn|]. right. exists raw. auto.
Qed.

Lemma aborts_at_assertion_iff_witness :
  exists msg, outcome page_net_bold = Some (AssertionError msg).
Proof.
  apply (proj2 (aborts_at_assertion_iff page_net_bold)).
  exists [seg_net], seg_bold, [], (of_string "Mines"),
    (of_string "Find <b>all</b> mines.").
  split; [reflexivity|]. split.
  - constructor; [|constructor]. eexists. reflexivity.
  - split; [reflexivity|]. split; [reflexivity|]. left. vm_compute. tauto.
Defined.

(** C5: the output is a function of the page text: any two runs on the same
    page leave the same file and end the same way, namely as [main] computes
    them. *)
Theorem script_runs_deterministic page :
  script_runs page (output page) (outcome page)
  /\ forall f1 o1 f2 o2,
       script_runs page f1 o1 -> script_runs page f2 o2 ->
       f1 = f2 /\ o1 = o2.
Proof.
  split.
  - unfold output, outcome, main.
    destruct (loop (skipn 1 (split SPAN page)) (print HEADER []))
      as [f [e|]] eqn:E; apply loop_runs_loop in E; cbn [fst snd].
    + apply script_aborts. exact E.
    + apply script_completes. exact E.
  - intros f1 o1 f2 o2 H1 H2.
    destruct H1 as [f1 e1 H1 | f1 H1]; destruct H2 as [f2 e2 H2 | f2 H2];
      destruct (loop_runs_functional _ _ _ _ H1 _ _ H2) as [Hf Ho];
      try discriminate Ho; subst; auto.
Qed.

Lemma script_runs_deterministic_witness :
  output page_net =
    print FOOTER
      (print (format_entry (of_string "Net") (of_string "Rotate tiles."))
         (print HEADER []))
  /\ outcome page_net = None.
Proof.
  apply (proj2 (script_runs_deterministic page_net)).
  - exact (proj1 (script_runs_deterministic page_net)).
  - apply script_completes.
    change (skipn 1 (split SPAN page_net)) with [seg_net].
    eapply loop_next; [vm_compute; reflexivity | apply loop_done].
Defined.

Lemma entry_line_newline page nd :
  In nd (pairs page) -> In NL (entry_line nd) <-> In NL (fst nd).
Proof.
  destruct nd as [name desc]. intros Hin.
  apply In_written in Hin as (p & _ & Hp).
  apply extract_Ok in Hp as (raw & _ & _ & -> & _).
  unfold entry_line. cbn [fst snd]. rewrite In_format_entry. split.
  - intros [H | [H | H]]; [exact H | destruct (clean_desc_no_NL _ H) |].
    exfalso. revert H. vm_compute. intuition discriminate.
  - auto.
Qed.

(** C6, as stated: on a completed run the file is the header line, exactly
    one line per extracted pair and the closing line.  It fails when a name
    contains a newline: the name is copied as it is and its entry spreads
    over two lines of the file. *)
Lemma entry_can_span_two_lines :
  completes page_black_box
  /\ length (pairs page_black_box) = 1
  /\ length (filter (N.eqb NL) (output page_black_box)) = 4
  /\ ~ is_lines (output page_black_box)
         (HEADER :: map entry_line (pairs page_black_box) ++ [FOOTER]).
Proof.
  split; [reflexivity|]. split; [reflexivity|]. split; [reflexivity|].
  intros [_ H]. inversion H as [|? ? _ H']. inversion H' as [|? ? Hnl _].
  apply Hnl. vm_compute. tauto.
Qed.

(** C6, amended: on a completed run the file is the header
    [NSString *GameDescriptions[][2] = {] and a newline, then for each
    extracted pair, in order, the text [    {@"<name>", @"<desc>"},] and a
    newline, then [};] and a newline; these are the lines of the file, one
    per pair, exactly when no extracted name contains a newline. *)
Theorem completed_run_output page :
  completes page ->
  output page = unlines (HEADER :: map entry_line (pairs page) ++ [FOOTER])
  /\ map extract (segments page) = map Ok (pairs page)
  /\ (is_lines (output page)
        (HEADER :: map entry_line (pairs page) ++ [FOOTER])
      <-> Forall (fun nd => ~ In NL (fst nd)) (pairs page)).
Proof.
  unfold completes. intros H. pose proof (outcome_cases page) as Hc.
  rewrite H in Hc. split; [apply output_completed, H|]. split; [exact Hc|].
  unfold is_lines. rewrite Forall_cons_iff, Forall_app, Forall_map.
  rewrite !Forall_forall. split.
  - intros (_ & _ & Hent & _) nd Hnd Hnl.
    apply (Hent nd Hnd). apply (entry_line_newline page nd Hnd). exact Hnl.
  - intros Hnames. split; [apply output_completed, H|].
    split; [vm_compute; intuition discriminate|]. split.
    + intros nd Hnd Hnl. apply (Hnames nd Hnd).
      apply (entry_line_newline page nd Hnd). exact Hnl.
    + intros l [<- | []]. vm_compute. intuition discriminate.
Qed.

Lemma completed_run_output_witness :
  output page_net =
    unlines (HEADER :: map entry_line (pairs page_net) ++ [FOOTER])
  /\ map extract (segments page_net) = map Ok (pairs page_net)
  /\ (is_lines (output page_net)
        (HEADER :: map entry_line (pairs page_net) ++ [FOOTER])
      <-> Forall (fun nd => ~ In NL (fst nd)) (pairs page_net)).
Proof.
  apply (completed_run_output page_net). reflexivity.
Defined.

(** C7: the chain applied to a description is exactly: every newline
    replaced by a space, trailing whitespace stripped, then the one literal
    substitution of [>] for [<code>&gt;</code>]; a written description is
    that transformation of the slice of [r[4]], and the written name is the
    slice of [r[1]] with nothing applied. *)
Theorem description_transformation :
  (forall raw, clean_desc raw = Spec.transform_description raw)
  /\ (forall p name desc,
        extract p = Ok (name, desc) ->
        get_name (split TR p) = Ok name
        /\ exists raw,
             get_raw_desc (split TR p) = Ok raw
             /\ desc = Spec.transform_description raw).
Proof.
  split; [exact clean_desc_spec|]. intros p name desc H.
  apply extract_Ok in H as (raw & Hn & Hraw & -> & _).
  split; [apply get_name_Ok, Hn|]. exists raw.
  split; [apply get_raw_desc_Ok, Hraw | apply clean_desc_spec].
Qed.

Lemma description_transformation_witness :
  get_name (split TR seg_net) = Ok (of_string "Net")
  /\ exists raw,
       get_raw_desc (split TR seg_net) = Ok raw
       /\ of_string "Rotate tiles." = Spec.transform_description raw.
Proof.
  apply (proj2 description_transformation seg_net). vm_compute. reflexivity.
Defined.

Section Lines.

Implicit Types (f s t : str) (ls : list str) (nd : str * str).

Lemma line_count_app s t : line_count (s ++ t) = line_count s + line_count t.
Proof. unfold line_count. rewrite filter_app, length_app. reflexivity. Qed.

Lemma line_count_unlines ls :
  line_count (unlines ls) = length ls + list_sum (map line_count ls).
Proof.
  induction ls as [|l ls IH]; [reflexivity|].
  rewrite unlines_cons, !line_count_app, IH. cbn [length map].
  change (list_sum (line_count l :: map line_count ls))
    with (line_count l + list_sum (map line_count ls)).
  change (line_count [NL]) with 1. lia.
Qed.

Lemma line_count_0 s : line_count s = 0 <-> ~ In NL s.
Proof.
  unfold line_count. induction s as [|c s [IH1 IH2]]; [simpl; tauto|].
  cbn [filter]. destruct (N.eqb_spec NL c) as [<-|Hne].
  - split; [discriminate | intros H; exfalso; apply H; left; reflexivity].
  - split.
    + intros H [Hc|Hin]; [apply Hne; symmetry; exact Hc | exact (IH1 H Hin)].
    + intros H. apply IH2. intros Hin. apply H. right. exact Hin.
Qed.

Lemma line_count_entry page nd :
  In nd (pairs page) -> line_count (entry_line nd) = line_count (fst nd).
Proof.
  destruct nd as [name desc]. intros Hin.
  apply In_written in Hin as (p & _ & Hp).
  apply extract_Ok in Hp as (raw & _ & _ & -> & _).
  unfold entry_line, format_entry. cbn [fst snd].
  rewrite !line_count_app.
  rewrite (proj2 (line_count_0 (clean_desc raw)) (clean_desc_no_NL raw)).
  change (line_count (of_string "    {@")) with 0.
  change (line_count [DQ]) with 0.
  change (line_count (of_string ", @")) with 0.
  change (line_count (of_string "},")) with 0. lia.
Qed.

Lemma list_sum_0 (l : list nat) : list_sum l = 0 <-> Forall (fun n => n = 0) l.
Proof.
  induction l as [|n l IH]; simpl.
  - split; [constructor | reflexivity].
  - rewrite Forall_cons_iff, <- IH. lia.
Qed.

End Lines.

(** C8, as stated: on a completed run the number of entry lines written is
    the number of occurrences of [<span class="puzzle">] in the page.  It
    fails when a name contains a newline: one marker, one entry, two entry
    lines. *)
Lemma entry_lines_exceed_markers :
  completes page_black_box
  /\ occurrences SPAN page_black_box = 1
  /\ length (pairs page_black_box) = 1
  /\ entry_lines page_black_box = 2
  /\ ~ (completes page_black_box ->
        entry_lines page_black_box = occurrences SPAN page_black_box).
Proof.
  split; [vm_compute; reflexivity|]. split; [vm_compute; reflexivity|].
  split; [vm_compute; reflexivity|]. split; [vm_compute; reflexivity|].
  intros H. specialize (H ltac:(vm_compute; reflexivity)).
  vm_compute in H. discriminate H.
Qed.

(** C8, amended: on a completed run the number of entries written is the
    number of occurrences of [<span class="puzzle">] in the page: [split]
    cuts at each of them, the text before the first is dropped, and every
    later segment gives exactly one entry.  The entries take that many
    lines of the file plus one for each newline inside a written name: as
    many lines as markers exactly when no name contains a newline. *)
Theorem entries_count page :
  completes page ->
  length (pairs page) = occurrences SPAN page
  /\ (exists before,
        split SPAN page = before :: segments page
        /\ forall i, find SPAN page = Some i -> before = firstn i page)
  /\ map extract (segments page) = map Ok (pairs page)
  /\ output page = unlines (HEADER :: map entry_line (pairs page) ++ [FOOTER])
  /\ entry_lines page
     = occurrences SPAN page
       + list_sum (map (fun nd => line_count (fst nd)) (pairs page))
  /\ (entry_lines page = occurrences SPAN page
      <-> Forall (fun nd => ~ In NL (fst nd)) (pairs page)).
Proof.
  unfold completes. intros H. pose proof (outcome_cases page) as Hc.
  rewrite H in Hc. unfold all_extracted in Hc. fold (pairs page) in Hc.
  assert (Hsplit : exists before,
             split SPAN page = before :: segments page
             /\ forall i, find SPAN page = Some i -> before = firstn i page).
  { unfold segments. change SPAN with (LT :: tl SPAN).
    rewrite split_unfold. destruct (find (LT :: tl SPAN) page) as [i|].
    - eexists. split; [reflexivity|]. intros ? [= <-]. reflexivity.
    - exists page. split; [reflexivity | discriminate]. }
  assert (Hcount : length (pairs page) = occurrences SPAN page).
  { destruct Hsplit as (before & Hs & _).
    pose proof (split_length LT (tl SPAN) page SPAN_unbordered) as Hlen.
    change (LT :: tl SPAN) with SPAN in Hlen. rewrite Hs in Hlen.
    pose proof (f_equal (@length _) Hc) as Hl. rewrite !length_map in Hl.
    simpl in Hlen. lia. }
  assert (Hlines : entry_lines page
                   = occurrences SPAN page
                     + list_sum (map (fun nd => line_count (fst nd)) (pairs page))).
  { unfold entry_lines. rewrite (output_completed page H).
    rewrite line_count_unlines. cbn [length map].
    change (list_sum (line_count HEADER :: ?l)) with (0 + list_sum l).
    rewrite length_app, length_map, map_app, list_sum_app, map_map.
    change (list_sum (map line_count [FOOTER])) with 0. cbn [length].
    rewrite (map_ext_in _ (fun nd => line_count (fst nd)))
      by (intros nd Hnd; apply (line_count_entry page nd Hnd)).
    lia. }
  split; [exact Hcount|]. split; [exact Hsplit|]. split; [exact Hc|].
  split; [apply output_completed, H|]. split; [exact Hlines|].
  rewrite Hlines. split.
  - intros Hsum.
    assert (Hz : list_sum (map (fun nd => line_count (fst nd)) (pairs page)) = 0)
      by lia.
    apply list_sum_0, Forall_map in Hz.
    eapply Forall_impl; [|exact Hz]. intros nd Hnd. apply line_count_0, Hnd.
  - intros Hall.
    assert (Hz : list_sum (map (fun nd => line_count (fst nd)) (pairs page)) = 0).
    { apply list_sum_0, Forall_map. eapply Forall_impl; [|exact Hall].
      intros nd Hnd. apply line_count_0, Hnd. }
    lia.
Qed.

Lemma entries_count_witness :
  length (pairs page_black_box) = occurrences SPAN page_black_box
  /\ (exists before,
        split SPAN page_black_box = before :: segments page_black_box
        /\ forall i, find SPAN page_black_box = Some i ->
                     before = firstn i page_black_box)
  /\ map extract (segments page_black_box) = map Ok (pairs page_black_box)
  /\ output page_black_box =
       unlines (HEADER :: map entry_line (pairs page_black_box) ++ [FOOTER])
  /\ entry_lines page_black_box
     = occurrences SPAN page_black_box
       + list_sum (map (fun nd => line_count (fst nd)) (pairs page_black_box))
  /\ (entry_lines page_black_box = occurrences SPAN page_black_box
      <-> Forall (fun nd => ~ In NL (fst nd)) (pairs page_black_box)).
Proof.
  apply (entries_count page_black_box). vm_compute. reflexivity.
Defined.

(** C9, as stated: the written descriptions have no newline and no trailing
    whitespace, so each entry occupies exactly one output line.  The
    conclusion fails: the name is part of the entry and is not cleaned. *)
Lemma clean_description_entry_with_newline :
  completes page_black_box
  /\ pairs page_black_box =
       [(of_string "Black" ++ [NL] ++ of_string "Box", of_string "Find the balls.")]
  /\ ~ (forall name desc,
          In (name, desc) (pairs page_black_box) ->
          ~ In NL desc /\ no_trailing_space desc
          /\ ~ In NL (format_entry name desc)).
Proof.
  split; [vm_compute; reflexivity|]. split; [vm_compute; reflexivity|].
  intros H.
  destruct (H (of_string "Black" ++ [NL] ++ of_string "Box")
              (of_string "Find the balls.")) as (_ & _ & Hnl).
  - vm_compute. left. reflexivity.
  - apply Hnl. vm_compute. tauto.
Qed.

(** C9, amended: every written description contains no newline character
    and does not end in whitespace; its entry occupies exactly one output
    line if and only if the name, which is written unchanged, contains no
    newline either. *)
Theorem written_description_one_line page name desc :
  In (name, desc) (pairs page) ->
  ~ In NL desc
  /\ no_trailing_space desc
  /\ rstrip desc = desc
  /\ (~ In NL (format_entry name desc) <-> ~ In NL name).
Proof.
  intros Hin. pose proof (entry_line_newline page (name, desc) Hin) as Hnl.
  apply In_written in Hin as (p & _ & Hp).
  apply extract_Ok in Hp as (raw & _ & _ & -> & _).
  split; [apply clean_desc_no_NL|].
  split; [apply clean_desc_no_trailing_space|]. split.
  - destruct (rstrip_decompose (clean_desc raw)) as (ws & Heq & Hws).
    destruct ws as [|w ws _] using rev_ind.
    + rewrite app_nil_r in Heq. symmetry. exact Heq.
    + exfalso. apply Forall_app in Hws as [_ Hw]. inversion Hw as [|? ? Hsp _].
      rewrite app_assoc in Heq.
      rewrite (clean_desc_no_trailing_space raw _ _ Heq) in Hsp.
      discriminate Hsp.
  - unfold entry_line in Hnl. cbn [fst snd] in Hnl. rewrite Hnl. reflexivity.
Qed.

Lemma written_description_one_line_witness :
  ~ In NL (of_string "Rotate tiles.")
  /\ no_trailing_space (of_string "Rotate tiles.")
  /\ rstrip (of_string "Rotate tiles.") = of_string "Rotate tiles."
  /\ (~ In NL (format_entry (of_string "Net") (of_string "Rotate tiles."))
      <-> ~ In NL (of_string "Net")).
Proof.
  apply (written_description_one_line page_net). vm_compute. left. reflexivity.
Defined.

(** * Further properties of the script *)

(** ** Searching in a concatenation *)

Section Concatenation.

Implicit Types (sub sep s t a b rest : str) (c : char) (i k : nat)
  (ps : list str).

Lemma startswith_find sub s : startswith sub s = true -> find sub s = Some 0.
Proof.
  intros H. destruct s; simpl find; simpl in H; rewrite H; reflexivity.
Qed.

Lemma contains_false sub s : contains sub s = false <-> find sub s = None.
Proof.
  unfold contains. destruct (find sub s); split; congruence.
Qed.

(** [find] steps over a prefix in which no occurrence starts. *)
Lemma find_app_none sub a : forall rest,
  (forall k, k < length a -> startswith sub (skipn k (a ++ rest)) = false) ->
  find sub (a ++ rest) = option_map (Nat.add (length a)) (find sub rest).
Proof.
  induction a as [|x a IH]; intros rest H.
  - simpl. destruct (find sub rest); reflexivity.
  - change ((x :: a) ++ rest) with (x :: a ++ rest). simpl find.
    rewrite (H 0 ltac:(simpl; lia) : startswith sub (x :: a ++ rest) = false).
    rewrite IH.
    + destruct (find sub rest); reflexivity.
    + intros k Hk. apply (H (S k)). simpl. lia.
Qed.

(** An occurrence can only start at the first character of [sub]. *)
Lemma startswith_head c sub s :
  startswith (c :: sub) s = true -> nth_error s 0 = Some c.
Proof.
  destruct s as [|d s]; simpl; [discriminate|].
  rewrite andb_true_iff, N.eqb_eq. intros [-> _]. reflexivity.
Qed.

Lemma find_skip_chars c sub a rest :
  ~ In c a ->
  find (c :: sub) (a ++ rest)
  = option_map (Nat.add (length a)) (find (c :: sub) rest).
Proof.
  intros Hnin. apply find_app_none. intros k Hk.
  destruct (startswith (c :: sub) (skipn k (a ++ rest))) eqn:E; [|reflexivity].
  exfalso. apply Hnin. apply startswith_head in E.
  rewrite nth_error_skipn_0, nth_error_app1 in E by exact Hk.
  eapply nth_error_In, E.
Qed.

Lemma find_chars_None c sub s : ~ In c s -> find (c :: sub) s = None.
Proof.
  intros Hnin. destruct (find (c :: sub) s) as [i|] eqn:F; [|reflexivity].
  exfalso. apply Hnin. destruct (find_Some _ _ _ F) as (_ & Hat & _).
  apply startswith_head in Hat. rewrite nth_error_skipn_0 in Hat.
  eapply nth_error_In, Hat.
Qed.

(** An occurrence found in a prefix is an occurrence in the whole. *)
Lemma startswith_skipn_app sub a b k :
  startswith sub (skipn k a) = true -> startswith sub (skipn k (a ++ b)) = true.
Proof.
  intros H. apply startswith_app in H as [u Hu]. apply startswith_app.
  exists (u ++ skipn (k - length a) b).
  rewrite skipn_app, Hu, <- app_assoc. reflexivity.
Qed.

(** When the first character of [sep] does not come back inside it, no
    occurrence starts in an occurrence-free [a] and runs into a following
    text that begins with that character. *)
Lemma no_straddle c sep a rest k :
  ~ In c sep -> find (c :: sep) a = None -> k < length a ->
  startswith (c :: sep) (skipn k (a ++ c :: rest)) = false.
Proof.
  intros Hnin Hfree Hk.
  destruct (startswith (c :: sep) (skipn k (a ++ c :: rest))) eqn:E;
    [exfalso | reflexivity].
  apply startswith_app in E as [u Hu].
  assert (Hc : nth_error (skipn k (a ++ c :: rest)) (length a - k) = Some c).
  { rewrite nth_error_skipn. replace (k + (length a - k)) with (length a) by lia.
    rewrite nth_error_app2, Nat.sub_diag by lia. reflexivity. }
  rewrite Hu in Hc.
  destruct (le_lt_dec (length (c :: sep)) (length a - k)) as [Hin | Hout].
  - assert (Hocc : startswith (c :: sep) (skipn k a) = true).
    { apply startswith_app. exists (skipn (length (c :: sep)) (skipn k a)).
      assert (Hpre : firstn (length (c :: sep)) (skipn k a) = c :: sep).
      { apply (f_equal (firstn (length (c :: sep)))) in Hu.
        rewrite skipn_app, firstn_app, length_skipn in Hu.
        replace (length (c :: sep) - (length a - k)) with 0 in Hu by lia.
        rewrite firstn_O, app_nil_r in Hu. rewrite Hu.
        rewrite firstn_app, firstn_all, Nat.sub_diag, firstn_O, app_nil_r.
        reflexivity. }
      rewrite <- Hpre at 1. symmetry. apply firstn_skipn. }
    rewrite (find_None _ _ k Hfree) in Hocc. discriminate Hocc.
  - rewrite nth_error_app1 in Hc by exact Hout.
    destruct (length a - k) as [|m] eqn:Em; [lia|]. simpl in Hc.
    apply Hnin. eapply nth_error_In, Hc.
Qed.

Lemma find_app_free c sep a rest :
  ~ In c sep -> find (c :: sep) a = None ->
  find (c :: sep) (a ++ c :: rest)
  = option_map (Nat.add (length a)) (find (c :: sep) (c :: rest)).
Proof.
  intros Hnin Hfree. apply find_app_none. intros k Hk.
  apply no_straddle; assumption.
Qed.

Lemma skipn_app_length a n b : skipn (length a + n) (a ++ b) = skipn n b.
Proof. induction a as [|x a IH]; [reflexivity | exact IH]. Qed.

Lemma firstn_app_length a b : firstn (length a) (a ++ b) = a.
Proof.
  rewrite firstn_app, firstn_all, Nat.sub_diag, firstn_O, app_nil_r.
  reflexivity.
Qed.

Lemma split_nonempty sep s : split sep s <> [].
Proof.
  destruct sep as [|c sep]; [simp split; discriminate|].
  rewrite split_unfold. destruct (find (c :: sep) s); discriminate.
Qed.

Lemma join_cons sep p ps :
  ps <> [] -> join sep (p :: ps) = p ++ sep ++ join sep ps.
Proof. destruct ps; [contradiction | reflexivity]. Qed.

(** Splitting what [join] put together gives the pieces back, when the
    separator's first character does not come back inside it and no piece
    contains the separator. *)
Lemma split_join_pieces c sep ps :
  ~ In c sep -> ps <> [] ->
  Forall (fun p => contains (c :: sep) p = false) ps ->
  split (c :: sep) (join (c :: sep) ps) = ps.
Proof.
  intros Hnin Hne Hfree. induction ps as [|p ps IH]; [contradiction|].
  inversion Hfree as [|? ? Hp Hps]; subst. apply contains_false in Hp.
  destruct ps as [|q ps].
  - simpl join. rewrite split_unfold, Hp. reflexivity.
  - rewrite join_cons by discriminate. rewrite split_unfold.
    change ((c :: sep) ++ join (c :: sep) (q :: ps))
      with (c :: sep ++ join (c :: sep) (q :: ps)).
    rewrite find_app_free by assumption.
    rewrite startswith_find
      by (apply startswith_app; eexists; reflexivity).
    cbn [option_map]. rewrite Nat.add_0_r.
    rewrite firstn_app, firstn_all, Nat.sub_diag, firstn_O, app_nil_r.
    f_equal.
    change (c :: sep ++ join (c :: sep) (q :: ps))
      with ((c :: sep) ++ join (c :: sep) (q :: ps)).
    rewrite skipn_app_length, <- (Nat.add_0_r (length (c :: sep))).
    rewrite skipn_app_length. apply IH; [discriminate | assumption].
Qed.

End Concatenation.

(** ** Splitting and joining *)

(** [split] loses nothing: joining the pieces with the separator gives the
    string back. *)
Theorem join_split sep s : join sep (split sep s) = s.
Proof.
  destruct sep as [|c sep]; [simp split; reflexivity|].
  induction s as [s IH] using str_length_ind.
  rewrite split_unfold. destruct (find (c :: sep) s) as [i|] eqn:F;
    [|reflexivity].
  rewrite join_cons by apply split_nonempty.
  rewrite (IH _ (find_rest_shorter _ _ _ _ F)).
  destruct (find_Some _ _ _ F) as (_ & Hat & _).
  apply startswith_app in Hat as [t Ht].
  rewrite Nat.add_comm, <- skipn_skipn, Ht.
  rewrite <- (Nat.add_0_r (length (c :: sep))), skipn_app_length.
  simpl skipn. rewrite <- Ht. apply firstn_skipn.
Qed.

(** No piece [split] returns contains the separator. *)
Theorem split_pieces_free c sep s :
  Forall (fun p => contains (c :: sep) p = false) (split (c :: sep) s).
Proof.
  induction s as [s IH] using str_length_ind.
  rewrite split_unfold. destruct (find (c :: sep) s) as [i|] eqn:F.
  - constructor; [|apply IH, (find_rest_shorter _ _ _ _ F)].
    apply contains_false.
    destruct (find (c :: sep) (firstn i s)) as [k|] eqn:Fk; [|reflexivity].
    exfalso. destruct (find_Some _ _ _ F) as (_ & _ & Hmin).
    destruct (find_Some _ _ _ Fk) as (Hk & Hat & _).
    assert (Hlt : k < i).
    { pose proof Hat as Hat'. apply startswith_app in Hat' as [u Hu].
      apply (f_equal (@length _)) in Hu.
      rewrite length_skipn, length_app in Hu. simpl in Hu.
      pose proof (firstn_le_length i s) as Hle.
      rewrite length_firstn in Hu. lia. }
    apply (startswith_skipn_app _ _ (skipn i s)) in Hat.
    rewrite firstn_skipn in Hat. rewrite (Hmin k Hlt) in Hat.
    discriminate Hat.
  - constructor; [|constructor]. apply contains_false. exact F.
Qed.

(** A page put together from a preamble and puzzle blocks, none of which
    contains the span marker, is cut back into exactly those blocks, the
    preamble being dropped. *)
Theorem segments_of_joined_page before ps :
  Forall (fun p => contains SPAN p = false) (before :: ps) ->
  segments (join SPAN (before :: ps)) = ps.
Proof.
  intros H. unfold segments. change SPAN with (LT :: tl SPAN) in *.
  rewrite split_join_pieces; [reflexivity | | discriminate | exact H].
  intros Hin. repeat (destruct Hin as [Hin|Hin]; [discriminate Hin|]).
  exact Hin.
Qed.

Lemma segments_of_joined_page_witness :
  segments (join SPAN [of_string "<html>"; seg_net; seg_bold])
  = [seg_net; seg_bold].
Proof.
  apply (segments_of_joined_page (of_string "<html>") [seg_net; seg_bold]).
  repeat constructor.
Defined.

(** A block put together from rows, none of which contains ["<tr>"], is cut
    back into exactly those rows. *)
Theorem rows_of_joined_block rows :
  rows <> [] ->
  Forall (fun r => contains TR r = false) rows ->
  split TR (join TR rows) = rows.
Proof.
  intros Hne H. change TR with (LT :: tl TR) in *.
  apply split_join_pieces; [|exact Hne | exact H].
  intros Hin. repeat (destruct Hin as [Hin|Hin]; [discriminate Hin|]).
  exact Hin.
Qed.

Lemma rows_of_joined_block_witness :
  split TR (join TR [of_string "<table>"; of_string "<th>Net</th></tr>"])
  = [of_string "<table>"; of_string "<th>Net</th></tr>"].
Proof.
  apply rows_of_joined_block; [discriminate | repeat constructor].
Defined.

(** ** Pages without puzzles, and how a run ends *)

(** A page in which the span marker does not occur (the empty page too)
    gives an empty array and no error. *)
Theorem page_without_puzzles page :
  contains SPAN page = false ->
  main page = (unlines [HEADER; FOOTER], None).
Proof.
  intros H. apply contains_false in H. unfold main.
  change SPAN with (LT :: tl SPAN) in *. rewrite split_unfold, H.
  reflexivity.
Qed.

Lemma page_without_puzzles_witness :
  main [] = (unlines [HEADER; FOOTER], None).
Proof. apply page_without_puzzles. reflexivity. Defined.

(** Never more entries than span markers, and as many exactly when the run
    completes. *)
Theorem completes_iff_all_entries page :
  length (pairs page) <= occurrences SPAN page
  /\ (completes page <-> length (pairs page) = occurrences SPAN page).
Proof.
  assert (Hseg : length (segments page) = occurrences SPAN page).
  { pose proof (split_length LT (tl SPAN) page SPAN_unbordered) as Hlen.
    change (LT :: tl SPAN) with SPAN in Hlen. unfold segments.
    rewrite length_skipn, Hlen. lia. }
  unfold completes. pose proof (outcome_cases page) as Hc.
  destruct (outcome page) as [e|].
  - destruct Hc as (pre & p & post & Hs & Hpre & _).
    apply (f_equal (@length _)) in Hpre. rewrite !length_map in Hpre.
    fold (pairs page) in Hpre. rewrite Hs, length_app in Hseg.
    simpl in Hseg. split; [lia|]. split; [discriminate | lia].
  - unfold all_extracted in Hc. fold (pairs page) in Hc.
    apply (f_equal (@length _)) in Hc. rewrite !length_map in Hc.
    split; [lia|]. split; [lia | reflexivity].
Qed.

Lemma unlines_snoc ls l : unlines (ls ++ [l]) = unlines ls ++ l ++ [NL].
Proof. rewrite unlines_app, (unlines_cons l []). reflexivity. Qed.

(** The closing line [};] ends the file exactly when the run completed: a
    file cut short by an exception ends in the header or in an entry. *)
Theorem footer_iff_completes page :
  completes page <-> exists f, output page = f ++ FOOTER ++ [NL].
Proof.
  unfold completes. split.
  - intros H. rewrite (output_completed page H).
    exists (unlines (HEADER :: map entry_line (pairs page))).
    rewrite app_comm_cons, unlines_snoc. reflexivity.
  - intros [f Hf]. destruct (outcome page) as [e|] eqn:E; [|reflexivity].
    exfalso. rewrite (output_aborted page e E) in Hf.
    assert (Hlast : exists ls l x,
               HEADER :: map entry_line (pairs page) = ls ++ [l ++ [x]]
               /\ x <> 59%N).
    { destruct (pairs page) as [|nd l0 _] using rev_ind.
      - exists [], (removelast HEADER), 123%N.
        split; [reflexivity | discriminate].
      - exists (HEADER :: map entry_line l0),
          (removelast (entry_line nd)), 44%N. split; [|discriminate].
        rewrite map_app, app_comm_cons. f_equal. cbn [map]. f_equal.
        unfold entry_line, format_entry.
        rewrite !app_assoc. rewrite removelast_app by discriminate.
        rewrite <- !app_assoc. reflexivity. }
    destruct Hlast as (ls & l & x & Heq & Hx). rewrite Heq, unlines_snoc in Hf.
    change (FOOTER ++ [NL]) with ([125%N] ++ [59%N] ++ [NL]) in Hf.
    rewrite !app_assoc in Hf. apply app_inj_tail in Hf as [Hf _].
    apply app_inj_tail in Hf as [_ Hf]. exact (Hx Hf).
Qed.

(** ** The cleaning of a description *)

Section Cleaning.

Implicit Types (old new s t ws raw : str) (c : char).

Lemma replace_length_le c old new s :
  length new <= length (c :: old) ->
  length (replace (c :: old) new s) <= length s.
Proof.
  intros Hnew. induction s as [s IH] using str_length_ind.
  rewrite replace_unfold. destruct (find (c :: old) s) as [i|] eqn:F;
    [|reflexivity].
  pose proof (IH _ (find_rest_shorter _ _ _ _ F)) as Hrest.
  destruct (find_Some _ _ _ F) as (Hle & Hat & _).
  apply startswith_app in Hat as [t Ht].
  apply (f_equal (@length _)) in Ht. rewrite length_skipn, length_app in Ht.
  rewrite !length_app, length_firstn. rewrite length_skipn in Hrest. lia.
Qed.

Lemma rstrip_length s : length (rstrip s) <= length s.
Proof.
  destruct (rstrip_decompose s) as (ws & Heq & _).
  rewrite Heq at 2. rewrite length_app. lia.
Qed.

Lemma rstrip_spaces ws :
  Forall (fun c => isspace c = true) ws -> rstrip ws = [].
Proof.
  induction 1 as [|c ws Hc _ IH]; [reflexivity|].
  rewrite rstrip_cons, IH, Hc. reflexivity.
Qed.

Lemma rstrip_app_spaces s ws :
  Forall (fun c => isspace c = true) ws -> rstrip (s ++ ws) = rstrip s.
Proof.
  intros Hws. induction s as [|c s IH].
  - simpl. apply rstrip_spaces. exact Hws.
  - change ((c :: s) ++ ws) with (c :: s ++ ws).
    rewrite !rstrip_cons, IH. reflexivity.
Qed.

Lemma no_trailing_space_rstrip s : no_trailing_space s -> rstrip s = s.
Proof.
  intros Hs. destruct (rstrip_decompose s) as (ws & Heq & Hws).
  destruct ws as [|w ws _] using rev_ind.
  - rewrite app_nil_r in Heq. symmetry. exact Heq.
  - exfalso. apply Forall_app in Hws as [_ Hw]. inversion Hw as [|? ? Hsp _].
    rewrite app_assoc in Heq. rewrite (Hs _ _ Heq) in Hsp. discriminate Hsp.
Qed.

Lemma subst_newline_space c :
  isspace c = true -> isspace (subst_char NL SP c) = true.
Proof.
  unfold subst_char. destruct (N.eqb c NL); [reflexivity | auto].
Qed.

End Cleaning.

(** The cleaning never makes a description longer. *)
Theorem clean_desc_length raw : length (clean_desc raw) <= length raw.
Proof.
  unfold clean_desc. change CODE_GT with (LT :: tl CODE_GT).
  etransitivity; [apply replace_length_le; simpl; lia|].
  etransitivity; [apply rstrip_length|].
  rewrite replace_char_map, length_map. reflexivity.
Qed.

(** Whitespace and newlines at the end of the sliced text make no
    difference to the description. *)
Theorem clean_desc_trailing_whitespace raw ws :
  Forall (fun c => isspace c = true) ws ->
  clean_desc (raw ++ ws) = clean_desc raw.
Proof.
  intros Hws. unfold clean_desc. f_equal.
  rewrite !replace_char_map, map_app. apply rstrip_app_spaces.
  apply Forall_map. eapply Forall_impl; [|exact Hws].
  intros c Hc. apply subst_newline_space. exact Hc.
Qed.

Lemma clean_desc_trailing_whitespace_witness :
  clean_desc (of_string "Rotate tiles." ++ [SP; NL; 9%N; 160%N])
  = clean_desc (of_string "Rotate tiles.").
Proof.
  apply clean_desc_trailing_whitespace. repeat constructor.
Defined.

(** A written description is left unchanged by the cleaning: nothing in it
    is a newline, trailing whitespace or a [<code>&gt;</code>]. *)
Theorem written_description_is_clean page name desc :
  In (name, desc) (pairs page) -> clean_desc desc = desc.
Proof.
  intros Hin. apply In_written in Hin as (p & _ & Hp).
  apply extract_Ok in Hp as (raw & _ & _ & Hd & Hlt & _).
  assert (Hnl : ~ In NL desc) by (subst desc; apply clean_desc_no_NL).
  assert (Hsp : no_trailing_space desc)
    by (subst desc; apply clean_desc_no_trailing_space).
  unfold clean_desc. rewrite replace_char_map, map_subst_char_id by exact Hnl.
  rewrite no_trailing_space_rstrip by exact Hsp.
  change CODE_GT with (LT :: tl CODE_GT).
  rewrite replace_unfold, find_chars_None by exact Hlt. reflexivity.
Qed.

Lemma written_description_is_clean_witness :
  clean_desc (of_string "Rotate tiles.") = of_string "Rotate tiles.".
Proof.
  apply (written_description_is_clean page_net (of_string "Net")).
  vm_compute. left. reflexivity.
Defined.

(** ** What a block yields *)

Section Blocks.

Implicit Types (p name d a b x r : str) (rest : list str).

Lemma TR_unbordered : unbordered TR.
Proof.
  apply head_not_in_tail_unbordered. intros H.
  repeat (destruct H as [H|H]; [discriminate H|]). exact H.
Qed.

Lemma startswith_firstn sub s :
  startswith sub s = true <-> firstn (length sub) s = sub.
Proof.
  rewrite startswith_app. split.
  - intros [t ->]. apply firstn_app_length.
  - intros H. exists (skipn (length sub) s).
    rewrite <- H at 1. symmetry. apply firstn_skipn.
Qed.

Lemma slice_app_mid a x b :
  slice (a ++ x ++ b) (length a) (length a + length x) = x.
Proof.
  unfold slice.
  replace (length a + length x - length a) with (length x) by lia.
  replace (skipn (length a) (a ++ x ++ b)) with (x ++ b).
  - apply firstn_app_length.
  - rewrite <- (Nat.add_0_r (length a)), skipn_app_length. reflexivity.
Qed.

(** A cell [a > x close b]: the first ['>'] ends [a], and the first
    [close] at or after [start] is the one that follows [x]. *)
Lemma cell_slice close start a x b :
  ~ In LT close -> ~ In GT a -> start <= length a + 1 ->
  ~ In LT (skipn start a) -> find (LT :: close) x = None ->
  let cell := (a ++ [GT]) ++ x ++ (LT :: close) ++ b in
  find [GT] cell = Some (length a)
  /\ find_from (LT :: close) cell start = Some (length a + 1 + length x)
  /\ slice cell (length a + 1) (length a + 1 + length x) = x.
Proof.
  intros Hclose Ha Hstart Hskip Hx cell. subst cell. split; [|split].
  - rewrite <- !app_assoc. rewrite find_skip_chars by exact Ha.
    rewrite startswith_find by reflexivity. simpl. f_equal. lia.
  - unfold find_from.
    destruct (Nat.ltb_spec (length ((a ++ [GT]) ++ x ++ (LT :: close) ++ b)) start)
      as [Hlen|_].
    { rewrite !length_app in Hlen. simpl in Hlen. lia. }
    rewrite skipn_app.
    replace (start - length (a ++ [GT])) with 0
      by (rewrite length_app; simpl; lia).
    simpl skipn at 2.
    rewrite find_skip_chars.
    + change ((LT :: close) ++ b) with (LT :: close ++ b).
      rewrite find_app_free by assumption.
      rewrite startswith_find
        by (apply startswith_app; exists b; reflexivity).
      simpl option_map. f_equal.
      rewrite length_skipn, length_app. simpl. lia.
    + rewrite skipn_app. intros Hin. apply in_app_or in Hin as [Hin|Hin].
      * exact (Hskip Hin).
      * destruct (start - length a) as [|n]; simpl in Hin.
        -- destruct Hin as [Hin|[]]. discriminate Hin.
        -- rewrite skipn_nil in Hin. destruct Hin.
  - replace (length a + 1) with (length (a ++ [GT]))
      by (rewrite length_app; reflexivity).
    apply slice_app_mid.
Qed.

Lemma get_name_cell r0 a name b rest :
  ~ In GT a -> ~ In LT (tl a) -> ~ In LT name ->
  get_name (r0 :: ((a ++ [GT]) ++ name ++ [LT] ++ b) :: rest) = Ok name.
Proof.
  intros Ha Htl Hname. apply get_name_Ok.
  assert (Hskip : ~ In LT (skipn 1 a)) by (destruct a; exact Htl).
  assert (Hfind : find [LT] name = None)
    by (apply find_char_None; exact Hname).
  destruct (cell_slice [] 1 a name b (fun H => H) Ha ltac:(lia) Hskip Hfind)
    as (Hi & Hj & Hs).
  eexists _, _, _. split; [reflexivity|]. split; [exact Hi|].
  split; [exact Hj|]. symmetry. exact Hs.
Qed.

Lemma get_raw_desc_cell r0 r1 r2 r3 a d b rest :
  ~ In GT a -> a <> [] -> ~ In LT (skipn 2 a) -> contains TD_END d = false ->
  get_raw_desc (r0 :: r1 :: r2 :: r3 :: ((a ++ [GT]) ++ d ++ TD_END ++ b) :: rest)
  = Ok d.
Proof.
  intros Ha Hne Hskip Hd. apply get_raw_desc_Ok. apply contains_false in Hd.
  change TD_END with (LT :: tl TD_END) in *.
  assert (Hclose : ~ In LT (tl TD_END)).
  { intros H. repeat (destruct H as [H|H]; [discriminate H|]). exact H. }
  assert (Hlen : 2 <= length a + 1)
    by (destruct a; [contradiction | simpl; lia]).
  destruct (cell_slice (tl TD_END) 2 a d b Hclose Ha Hlen Hskip Hd)
    as (Hi & Hj & Hs).
  eexists _, _, _. split; [reflexivity|]. split; [exact Hi|].
  split; [exact Hj|]. symmetry. exact Hs.
Qed.

End Blocks.

(** A block with fewer than four ["<tr>"] never gives an entry and never
    reaches the assertions: it ends the run with [IndexError] or
    [ValueError]. *)
Theorem block_with_few_rows p :
  occurrences TR p < 4 ->
  exists e, extract p = Raise e /\ (e = IndexError \/ e = ValueError).
Proof.
  intros Hocc.
  pose proof (split_length LT (tl TR) p TR_unbordered) as Hlen.
  change (LT :: tl TR) with TR in Hlen.
  assert (H4 : forall x, ~ field_slice (split TR p) 4 TD_END 2 x).
  { intros x (rn & i & j & Hn & _).
    assert (4 < length (split TR p)) by (apply nth_error_Some; congruence).
    lia. }
  destruct (extract p) as [[name desc]|e] eqn:E.
  - apply extract_Ok in E as (raw & _ & Hraw & _). destruct (H4 _ Hraw).
  - exists e. split; [reflexivity|]. apply extract_Raise in E.
    destruct E as [[[-> _] | [-> _]]
                  | [_ [[[-> _] | [-> _]] | (raw & Hraw & _)]]]; auto.
    destruct (H4 _ Hraw).
Qed.

Lemma block_with_few_rows_witness :
  exists e,
    extract (of_string "<table><tr><th>Net</th></tr><tr><td>i</td></tr></table>")
    = Raise e /\ (e = IndexError \/ e = ValueError).
Proof.
  apply block_with_few_rows. vm_compute. lia.
Defined.

(** A block without any ["<tr>"] (the empty block, when the page ends at
    the span marker) raises [IndexError] at [r[1]]. *)
Theorem block_without_rows p :
  contains TR p = false -> extract p = Raise IndexError.
Proof.
  intros H. apply contains_false in H. unfold extract.
  change TR with (LT :: tl TR) in *. rewrite split_unfold, H. reflexivity.
Qed.

Lemma block_without_rows_witness : extract [] = Raise IndexError.
Proof. apply block_without_rows. reflexivity. Defined.

(** When anything stands before the tag of the name cell (a newline after
    ["<tr>"], say), the search for ['<'] from index 1 stops at the tag
    itself and the name comes out empty, without any error. *)
Theorem name_cell_with_leading_text r0 x t rest :
  In GT (x :: LT :: t) ->
  get_name (r0 :: (x :: LT :: t) :: rest) = Ok [].
Proof.
  intros Hin. apply get_name_Ok.
  destruct (find [GT] (x :: LT :: t)) as [i|] eqn:F.
  - exists (x :: LT :: t), i, 1. split; [reflexivity|]. split; [exact F|].
    split; [reflexivity|]. unfold slice.
    replace (1 - (i + 1)) with 0 by lia. reflexivity.
  - apply find_char_None in F. contradiction.
Qed.

Lemma name_cell_with_leading_text_witness :
  get_name [of_string "<table>"; NL :: LT :: of_string "th>Net</th></tr>"]
  = Ok [].
Proof.
  apply name_cell_with_leading_text. vm_compute. tauto.
Defined.

(** On a block in the expected shape (rows joined by ["<tr>"], the name
    between the first ['>'] of row 1 and the next ['<'], the description
    between the first ['>'] of row 4 and the next ["</td>"]) the loop body
    returns the name as it is and the cleaned description, or fails the
    assertion when the cleaned description has a ['<'] or a double quote. *)
Theorem extract_well_formed_block r0 a1 name b1 r2 r3 a4 d b4 more :
  let r1 := (a1 ++ [GT]) ++ name ++ [LT] ++ b1 in
  let r4 := (a4 ++ [GT]) ++ d ++ TD_END ++ b4 in
  Forall (fun r => contains TR r = false) (r0 :: r1 :: r2 :: r3 :: r4 :: more) ->
  ~ In GT a1 -> ~ In LT (tl a1) -> ~ In LT name ->
  ~ In GT a4 -> a4 <> [] -> ~ In LT (skipn 2 a4) -> contains TD_END d = false ->
  extract (join TR (r0 :: r1 :: r2 :: r3 :: r4 :: more)) =
  if contains [LT] (clean_desc d) || contains [DQ] (clean_desc d)
  then Raise (AssertionError (clean_desc d))
  else Ok (name, clean_desc d).
Proof.
  intros r1 r4 Hrows Ha1 Htl Hname Ha4 Hne Hskip Hd. unfold extract.
  assert (Hsplit : split TR (join TR (r0 :: r1 :: r2 :: r3 :: r4 :: more))
                   = r0 :: r1 :: r2 :: r3 :: r4 :: more).
  { change TR with (LT :: tl TR) in *.
    apply split_join_pieces; [|discriminate | exact Hrows].
    intros H. repeat (destruct H as [H|H]; [discriminate H|]). exact H. }
  rewrite Hsplit. subst r1 r4.
  rewrite get_name_cell by assumption.
  rewrite get_raw_desc_cell by assumption.
  unfold bind, assert.
  destruct (contains [LT] (clean_desc d)); [reflexivity|].
  destruct (contains [DQ] (clean_desc d)); reflexivity.
Qed.

Lemma extract_well_formed_block_witness :
  extract
    (join TR
       [of_string "<table>";
        (of_string "<th align=center" ++ [GT]) ++ of_string "Net" ++ [LT]
          ++ of_string "/th></tr>";
        of_string "<td>i</td></tr>"; of_string "<td>l</td></tr>";
        (of_string "<td" ++ [GT]) ++ (of_string "Rotate tiles." ++ [NL])
          ++ TD_END ++ of_string "</tr></table></span>"])
  = Ok (of_string "Net", of_string "Rotate tiles.").
Proof.
  apply (extract_well_formed_block (of_string "<table>")
           (of_string "<th align=center") (of_string "Net")
           (of_string "/th></tr>") (of_string "<td>i</td></tr>")
           (of_string "<td>l</td></tr>") (of_string "<td")
           (of_string "Rotate tiles." ++ [NL])
           (of_string "</tr></table></span>") []).
  - repeat constructor.
  - vm_compute. intuition discriminate.
  - vm_compute. intuition discriminate.
  - vm_compute. intuition discriminate.
  - vm_compute. intuition discriminate.
  - discriminate.
  - vm_compute. intuition discriminate.
  - reflexivity.
Defined.

(** ** Whole pages *)

Section Pages.

Implicit Types (p before : str) (ps pre post : list str) (e : exn)
  (nds : list (str * str)).

Lemma loop_all_extracted ps nds :
  Forall2 (fun p nd => extract p = Ok nd) ps nds ->
  forall f, loop ps f = (f ++ unlines (map entry_line nds), None).
Proof.
  induction 1 as [|p nd ps nds Hp _ IH]; intros f.
  - simpl. rewrite app_nil_r. reflexivity.
  - cbn [loop map]. rewrite Hp. destruct nd as [name desc]. rewrite IH.
    rewrite unlines_cons. unfold print, entry_line. cbn [fst snd].
    rewrite <- !app_assoc. reflexivity.
Qed.

Lemma loop_aborted pre : forall p post e f,
  Forall succeeds pre -> extract p = Raise e ->
  loop (pre ++ p :: post) f
  = (f ++ unlines (map entry_line (written pre)), Some e).
Proof.
  induction pre as [|q pre IH]; intros p post e f Hpre Hp.
  - simpl. rewrite Hp, app_nil_r. reflexivity.
  - inversion Hpre as [|? ? [[name desc] Hq] Hrest]; subst.
    cbn [app loop written]. rewrite Hq. rewrite (IH p post e) by assumption.
    cbn [map]. rewrite unlines_cons. unfold print, entry_line. cbn [fst snd].
    rewrite <- !app_assoc. reflexivity.
Qed.

Lemma SPAN_head_not_in_tail : ~ In LT (tl SPAN).
Proof.
  intros H. repeat (destruct H as [H|H]; [discriminate H|]). exact H.
Qed.

End Pages.

(** The golden output of a page in the expected shape: a preamble and
    blocks joined by the span marker, each block giving a pair, produce the
    header, the entries of those pairs in order, and the closing line. *)
Theorem main_joined_page before ps nds :
  Forall (fun p => contains SPAN p = false) (before :: ps) ->
  Forall2 (fun p nd => extract p = Ok nd) ps nds ->
  main (join SPAN (before :: ps))
  = (unlines (HEADER :: map entry_line nds ++ [FOOTER]), None).
Proof.
  intros Hfree Hps. unfold main.
  replace (split SPAN (join SPAN (before :: ps))) with (before :: ps).
  - cbn [skipn]. rewrite (loop_all_extracted ps nds Hps). cbv iota beta.
    change (print HEADER []) with (unlines [HEADER]).
    rewrite <- unlines_app, print_unlines. reflexivity.
  - symmetry. change SPAN with (LT :: tl SPAN) in *.
    apply split_join_pieces;
      [exact SPAN_head_not_in_tail | discriminate | exact Hfree].
Qed.

Lemma main_joined_page_witness :
  main (join SPAN [of_string "<html>"; seg_net; seg_fifteen])
  = (unlines (HEADER
              :: map entry_line
                   [(of_string "Net", of_string "Rotate tiles.");
                    (of_string "The " ++ [DQ] ++ of_string "15" ++ [DQ]
                       ++ of_string " puzzle",
                     of_string "Slide tiles.")]
              ++ [FOOTER]), None).
Proof.
  apply main_joined_page.
  - repeat constructor.
  - repeat constructor; vm_compute; reflexivity.
Defined.

(** Nothing after the block that raises is looked at: replacing the rest of
    the page changes neither the file nor the exception. *)
Theorem text_after_failure_ignored before pre p post post' e :
  Forall (fun q => contains SPAN q = false) (before :: pre ++ p :: post) ->
  Forall (fun q => contains SPAN q = false) post' ->
  Forall succeeds pre -> extract p = Raise e ->
  main (join SPAN (before :: pre ++ p :: post))
  = main (join SPAN (before :: pre ++ p :: post')).
Proof.
  intros Hfree Hfree' Hpre Hp.
  assert (Hrun : forall rest,
             Forall (fun q => contains SPAN q = false)
               (before :: pre ++ p :: rest) ->
             main (join SPAN (before :: pre ++ p :: rest))
             = (print HEADER [] ++ unlines (map entry_line (written pre)),
                Some e)).
  { intros rest Hrest. unfold main.
    replace (split SPAN (join SPAN (before :: pre ++ p :: rest)))
      with (before :: pre ++ p :: rest).
    - cbn [skipn]. rewrite (loop_aborted pre p rest e _ Hpre Hp). reflexivity.
    - symmetry. change SPAN with (LT :: tl SPAN) in *.
      apply split_join_pieces;
        [exact SPAN_head_not_in_tail | discriminate | exact Hrest]. }
  rewrite (Hrun post Hfree). symmetry. apply Hrun.
  inversion Hfree as [|? ? Hb Hrest]; subst. constructor; [exact Hb|].
  apply Forall_app in Hrest as [H1 H2]. inversion H2; subst.
  apply Forall_app. split; [exact H1|]. constructor; assumption.
Qed.

Lemma text_after_failure_ignored_witness :
  main (join SPAN [of_string "<html>"; seg_net; seg_bold; seg_fifteen])
  = main (join SPAN [of_string "<html>"; seg_net; seg_bold]).
Proof.
  apply (text_after_failure_ignored (of_string "<html>") [seg_net] seg_bold
           [seg_fifteen] []
           (AssertionError (of_string "Find <b>all</b> mines."))).
  - repeat constructor.
  - constructor.
  - constructor; [|constructor]. eexists. vm_compute. reflexivity.
  - vm_compute. reflexivity.
Defined.

(** ** Entries and searches *)

Lemma app_cons_unique_r (x : char) a b a' b' :
  ~ In x b -> ~ In x b' -> a ++ x :: b = a' ++ x :: b' -> a = a' /\ b = b'.
Proof.
  revert a'. induction a as [|y a IH]; intros [|y' a'] Hb Hb' Heq.
  - injection Heq as <-. auto.
  - injection Heq as <- ->. exfalso. apply Hb. apply in_or_app.
    right. left. reflexivity.
  - injection Heq as -> <-. exfalso. apply Hb'. apply in_or_app.
    right. left. reflexivity.
  - injection Heq as <- Heq. destruct (IH a' Hb Hb' Heq) as [-> ->]. auto.
Qed.

(** An entry determines its pair, given that descriptions hold no double
    quote: the text between the last two quotes is the description. *)
Theorem format_entry_injective n1 d1 n2 d2 :
  ~ In DQ d1 -> ~ In DQ d2 ->
  format_entry n1 d1 = format_entry n2 d2 -> n1 = n2 /\ d1 = d2.
Proof.
  intros H1 H2 Heq. unfold format_entry in Heq.
  apply app_inv_head in Heq. apply app_inv_head in Heq.
  rewrite !app_assoc in Heq. apply app_inv_tail in Heq.
  apply app_inv_tail in Heq. rewrite <- !app_assoc in Heq.
  replace (n1 ++ [DQ] ++ of_string ", @" ++ [DQ] ++ d1)
    with ((n1 ++ [DQ] ++ of_string ", @") ++ DQ :: d1) in Heq
    by (rewrite <- !app_assoc; reflexivity).
  replace (n2 ++ [DQ] ++ of_string ", @" ++ [DQ] ++ d2)
    with ((n2 ++ [DQ] ++ of_string ", @") ++ DQ :: d2) in Heq
    by (rewrite <- !app_assoc; reflexivity).
  apply app_cons_unique_r in Heq as [Hn Hd]; try assumption.
  apply app_inv_tail in Hn. auto.
Qed.

Lemma format_entry_injective_witness :
  of_string "Net" = of_string "Net"
  /\ of_string "Rotate tiles." = of_string "Rotate tiles.".
Proof.
  apply format_entry_injective.
  - vm_compute. intuition discriminate.
  - vm_compute. intuition discriminate.
  - reflexivity.
Defined.

(** What [index] returns is the first place at or after [start] where the
    substring stands, inside the string. *)
Theorem index_from_found s sub start j :
  index_from s sub start = Ok j ->
  start <= j /\ j + length sub <= length s
  /\ slice s j (j + length sub) = sub
  /\ forall k, start <= k < j -> slice s k (k + length sub) <> sub.
Proof.
  unfold index_from, find_from.
  destruct (Nat.ltb_spec (length s) start) as [|Hstart]; [discriminate|].
  destruct (find sub (skipn start s)) as [j'|] eqn:F; [|discriminate].
  intros [= <-]. destruct (find_Some _ _ _ F) as (Hle & Hat & Hmin).
  rewrite length_skipn in Hle. rewrite skipn_skipn in Hat.
  split; [lia|]. split; [|split].
  - apply startswith_app in Hat as [u Hu].
    apply (f_equal (@length _)) in Hu.
    rewrite length_skipn, length_app in Hu. lia.
  - unfold slice. replace (start + j' + length sub - (start + j'))
      with (length sub) by lia.
    apply startswith_firstn. rewrite Nat.add_comm. exact Hat.
  - intros k [Hk1 Hk2] Hs. unfold slice in Hs.
    replace (k + length sub - k) with (length sub) in Hs by lia.
    apply startswith_firstn in Hs.
    specialize (Hmin (k - start) ltac:(lia)).
    rewrite skipn_skipn in Hmin.
    replace (k - start + start) with k in Hmin by lia. congruence.
Qed.

Lemma index_from_found_witness :
  1 <= 12 /\ 12 + length [LT] <= length (of_string "<th>Mines.gz</th>")
  /\ slice (of_string "<th>Mines.gz</th>") 12 (12 + length [LT]) = [LT]
  /\ forall k, 1 <= k < 12 ->
       slice (of_string "<th>Mines.gz</th>") k (k + length [LT]) <> [LT].
Proof.
  apply index_from_found. vm_compute. reflexivity.
Defined.

(** [index] raises [ValueError], and nothing else, exactly when the
    substring stands nowhere at or after [start]. *)
Theorem index_from_not_found s c sub start e :
  index_from s (c :: sub) start = Raise e ->
  e = ValueError
  /\ forall k, start <= k ->
       slice s k (k + length (c :: sub)) <> c :: sub.
Proof.
  unfold index_from, find_from. intros H.
  assert (He : e = ValueError).
  { destruct (length s <? start); [congruence|].
    destruct (find (c :: sub) (skipn start s)); simpl in H; congruence. }
  split; [exact He|]. intros k Hk Hs. unfold slice in Hs.
  replace (k + length (c :: sub) - k) with (length (c :: sub)) in Hs by lia.
  apply startswith_firstn in Hs.
  destruct (Nat.ltb_spec (length s) start) as [Hlen|Hlen].
  - rewrite skipn_all2 in Hs by lia. discriminate Hs.
  - destruct (find (c :: sub) (skipn start s)) eqn:F; [discriminate H|].
    pose proof (find_None _ _ (k - start) F) as Hn.
    rewrite skipn_skipn in Hn.
    replace (k - start + start) with k in Hn by lia. congruence.
Qed.

Lemma index_from_not_found_witness :
  ValueError = ValueError
  /\ forall k, 1 <= k ->
       slice (of_string "<th>Net") k (k + length [LT]) <> [LT].
Proof.
  apply (index_from_not_found (of_string "<th>Net") LT [] 1). reflexivity.
Defined.

(** ** The written name *)

Section Named.

Implicit Types (x : str).

Lemma block_named_rows x : block_named x = join TR (rows_named x).
Proof.
  unfold block_named, rows_named. cbn [join].
  rewrite <- !app_assoc. reflexivity.
Qed.

Lemma rows_named_free x :
  ~ In LT x -> Forall (fun r => contains TR r = false) (rows_named x).
Proof.
  intros x_no_LT.
  unfold rows_named. constructor; [reflexivity|].
  constructor; [|repeat constructor].
  apply contains_false. rewrite <- !app_assoc.
  rewrite find_app_none.
  - change TR with (LT :: tl TR).
    rewrite find_skip_chars by (vm_compute; intuition discriminate).
    rewrite find_skip_chars by exact x_no_LT. reflexivity.
  - intros k Hk. do 3 (destruct k as [|k]; [reflexivity|]).
    simpl in Hk. lia.
Qed.

Lemma extract_block_named x :
  ~ In LT x -> extract (block_named x) = Ok (x, of_string "Rotate tiles.").
Proof.
  intros x_no_LT.
  unfold extract. rewrite block_named_rows.
  assert (Hsplit : split TR (join TR (rows_named x)) = rows_named x).
  { change TR with (LT :: tl TR).
    apply split_join_pieces;
      [|discriminate | exact (rows_named_free x x_no_LT)].
    intros H. repeat (destruct H as [H|H]; [discriminate H|]). exact H. }
  rewrite Hsplit. unfold rows_named.
  rewrite get_name_cell; [|vm_compute; intuition discriminate
                          |vm_compute; intuition discriminate
                          |exact x_no_LT].
  reflexivity.
Qed.

Lemma block_named_free x :
  ~ In LT x -> contains SPAN (block_named x) = false.
Proof.
  intros x_no_LT.
  apply contains_false. unfold block_named. rewrite find_app_none.
  - change SPAN with (LT :: tl SPAN). rewrite find_skip_chars by exact x_no_LT.
    reflexivity.
  - intros k Hk. do 15 (destruct k as [|k]; [reflexivity|]).
    simpl in Hk. lia.
Qed.

Lemma segments_page_named x :
  ~ In LT x -> segments (page_named x) = [block_named x].
Proof.
  intros x_no_LT.
  unfold segments.
  change (page_named x)
    with (join SPAN [of_string "<html>"; block_named x]).
  change SPAN with (LT :: tl SPAN).
  rewrite split_join_pieces; [reflexivity | | discriminate |].
  - intros H. repeat (destruct H as [H|H]; [discriminate H|]). exact H.
  - constructor; [reflexivity|]. constructor; [|constructor].
    exact (block_named_free x x_no_LT).
Qed.

Lemma pairs_page_named x :
  ~ In LT x -> pairs (page_named x) = [(x, of_string "Rotate tiles.")].
Proof.
  intros x_no_LT. unfold pairs.
  rewrite segments_page_named by exact x_no_LT. cbn [written].
  rewrite extract_block_named by exact x_no_LT. reflexivity.
Qed.

Lemma completes_page_named x : ~ In LT x -> completes (page_named x).
Proof.
  intros x_no_LT. unfold completes.
  rewrite outcome_loop, segments_page_named by exact x_no_LT. cbn [loop].
  rewrite extract_block_named by exact x_no_LT. reflexivity.
Qed.

End Named.

(** C10: a written name is exactly the part of the second ["<tr>"]-delimited
    piece of its segment between the first ['>'] and the first ['<'] at
    index 1 or later, and that slice stands in the file as it is, inside
    the quotes of the entry's first string.  Nothing is substituted,
    stripped or checked: a name cell holding any text without ['<'] (quotes,
    newlines and trailing blanks included) is written unchanged. *)
Theorem written_name_is_slice :
  (forall page name desc,
     In (name, desc) (pairs page) ->
     exists p r1 i j,
       In p (segments page)
       /\ nth_error (split TR p) 1 = Some r1
       /\ (nth_error r1 i = Some GT
           /\ forall k, k < i -> nth_error r1 k <> Some GT)
       /\ (1 <= j /\ nth_error r1 j = Some LT
           /\ forall k, 1 <= k < j -> nth_error r1 k <> Some LT)
       /\ name = slice r1 (i + 1) j
       /\ (i + 1 <= j -> r1 = firstn (i + 1) r1 ++ name ++ skipn j r1)
       /\ get_name (split TR p) = Ok name
       /\ exists before after,
            output page =
            before
            ++ (of_string "    {@" ++ [DQ] ++ slice r1 (i + 1) j ++ [DQ]
                ++ of_string ", @" ++ [DQ] ++ desc ++ [DQ] ++ of_string "},")
            ++ [NL] ++ after)
  /\ (forall x,
        ~ In LT x ->
        completes (page_named x)
        /\ pairs (page_named x) = [(x, of_string "Rotate tiles.")]
        /\ output (page_named x) =
           unlines
             [HEADER;
              of_string "    {@" ++ [DQ] ++ x ++ [DQ] ++ of_string ", @"
                ++ [DQ] ++ of_string "Rotate tiles." ++ [DQ]
                ++ of_string "},";
              FOOTER]).
Proof.
  split.
  - intros page name desc Hin.
    destruct (In_written _ _ Hin) as (p & Hp & Hx).
    apply extract_Ok in Hx as (raw & Hn & _).
    pose proof Hn as (r1 & i & j & Hr1 & Hi & Hj & Hname).
    exists p, r1, i, j. split; [exact Hp|]. split; [exact Hr1|].
    split; [apply find_char_Some, Hi|].
    split; [apply find_from_char_Some, Hj|]. split; [exact Hname|]. split.
    + intros Hle. subst name. unfold slice.
      rewrite <- (firstn_skipn (i + 1) r1) at 1. f_equal.
      rewrite <- (firstn_skipn (j - (i + 1)) (skipn (i + 1) r1)) at 1.
      f_equal. rewrite skipn_skipn. f_equal. lia.
    + split; [apply get_name_Ok, Hn|].
      apply in_split in Hin as (l1 & l2 & Hl).
      exists (unlines (HEADER :: map entry_line l1)),
        (unlines (map entry_line l2
                  ++ match outcome page with
                     | None => [FOOTER]
                     | Some _ => []
                     end)).
      rewrite output_pairs, Hl.
      replace (HEADER :: map entry_line (l1 ++ (name, desc) :: l2)
                 ++ match outcome page with
                    | None => [FOOTER]
                    | Some _ => []
                    end)
        with ((HEADER :: map entry_line l1)
                ++ entry_line (name, desc)
                   :: (map entry_line l2
                       ++ match outcome page with
                          | None => [FOOTER]
                          | Some _ => []
                          end))
        by (rewrite map_app; cbn [map]; rewrite <- app_assoc; reflexivity).
      rewrite unlines_app, (unlines_cons (entry_line (name, desc))).
      subst name. reflexivity.
  - intros x Hx. split; [apply completes_page_named, Hx|].
    split; [apply pairs_page_named, Hx|].
    rewrite (output_completed _ (completes_page_named x Hx)).
    rewrite (pairs_page_named x Hx). reflexivity.
Qed.

Lemma written_name_is_slice_witness :
  exists p r1 i j,
    In p (segments page_fifteen)
    /\ nth_error (split TR p) 1 = Some r1
    /\ (nth_error r1 i = Some GT /\ forall k, k < i -> nth_error r1 k <> Some GT)
    /\ (1 <= j /\ nth_error r1 j = Some LT
        /\ forall k, 1 <= k < j -> nth_error r1 k <> Some LT)
    /\ of_string "The " ++ [DQ] ++ of_string "15" ++ [DQ] ++ of_string " puzzle"
       = slice r1 (i + 1) j
    /\ (i + 1 <= j ->
        r1 = firstn (i + 1) r1
             ++ (of_string "The " ++ [DQ] ++ of_string "15" ++ [DQ]
                 ++ of_string " puzzle")
             ++ skipn j r1)
    /\ get_name (split TR p)
       = Ok (of_string "The " ++ [DQ] ++ of_string "15" ++ [DQ]
             ++ of_string " puzzle")
    /\ exists before after,
         output page_fifteen =
         before
         ++ (of_string "    {@" ++ [DQ] ++ slice r1 (i + 1) j ++ [DQ]
             ++ of_string ", @" ++ [DQ] ++ of_string "Slide tiles." ++ [DQ]
             ++ of_string "},")
         ++ [NL] ++ after.
Proof.
  apply (proj1 written_name_is_slice page_fifteen).
  vm_compute. left. reflexivity.
Defined.
